(** * A to-do list manager: task classes, reminder channels, task list

    Shallow embedding of [project_programming_2_completed.py].

    Python objects live in a store and are handled through references, so
    that a task added twice to an application, or passed to a reminder after
    it was added, is one object and not a copy.  Console output is a log of
    printed lines.  Methods are computations in a state monad over the store,
    the application's list and the log; the only way such a computation can
    fail is by following a reference that is not in the store, which Python
    rules out and which the well-formedness predicate below excludes. *)

From stdpp Require Import gmap strings list.

Local Open Scope string_scope.
Local Open Scope list_scope.

(** ** Objects *)

Abbreviation loc := positive.

(** The class of a task object, with the attributes the subclass adds to
    those of [Task]. *)
Inductive TaskClass : Type :=
  | CTask
  | CPriorityTask
  | CRecurringTask (recurrence : string)
  | CSimpleTask
  | CAdvancedTask (extra_notes : string).

(** The attributes [Task.__init__] assigns; [created_at] is the reading of
    [datetime.now()], an opaque number here. *)
Record TaskObj : Type := mkTask {
  title : string;
  completed : bool;
  priority : string;
  created_at : Z;
  cls : TaskClass
}.

(** The one attribute of a [ToDoApp]: its list of task references. *)
Record ToDoAppObj : Type := mkApp { tasks : list loc }.

Record World : Type := mkWorld {
  heap : gmap loc TaskObj;
  app : ToDoAppObj;
  stdout : list string
}.

(** ** The monad of methods *)

Definition M (A : Type) : Type := World -> option (A * World).

Definition ret {A : Type} (a : A) : M A := fun w => Some (a, w).

Definition bind {A B : Type} (m : M A) (k : A -> M B) : M B :=
  fun w => match m w with
           | Some (a, w') => k a w'
           | None => None
           end.

#[global] Instance M_ret : MRet M := @ret.
#[global] Instance M_bind : MBind M := fun A B k m => bind m k.

(** [print(s)] *)
Definition print (s : string) : M unit :=
  fun w => Some (tt, mkWorld (heap w) (app w) (stdout w ++ [s])).

(** Reading the object behind a reference. *)
Definition deref (l : loc) : M TaskObj :=
  fun w => match heap w !! l with
           | Some t => Some (t, w)
           | None => None
           end.

(** Creating an object: a reference that is not yet in the store. *)
Definition alloc (t : TaskObj) : M loc :=
  fun w => let l := fresh (dom (heap w)) in
           Some (l, mkWorld (<[l := t]> (heap w)) (app w) (stdout w)).

Definition get_tasks : M (list loc) := fun w => Some (tasks (app w), w).

(** [for x in xs: body(x)] *)
Fixpoint for_each {A : Type} (body : A -> M unit) (xs : list A) : M unit :=
  match xs with
  | [] => mret tt
  | x :: xs' => body x;; for_each body xs'
  end.

(** ** class Task *)

Module Task.

(** [def __init__(self, title, priority="Medium")]; [None] is an omitted
    argument.  [c] is the class of [self] together with the attributes
    that the subclass constructor assigns once this one returns. *)
Definition __init__ (c : TaskClass) (title : string)
    (priority : option string) (now : Z) : TaskObj :=
  {| title := title;
     completed := false;
     priority := default "Medium" priority;
     created_at := now;
     cls := c |}.

Definition set_completed (status : bool) (self : TaskObj) : TaskObj :=
  {| title := title self;
     completed := status;
     priority := priority self;
     created_at := created_at self;
     cls := cls self |}.

(** [def update_status(self, status)]: [self.completed = status] *)
Definition update_status (self : loc) (status : bool) : M unit :=
  fun w => match heap w !! self with
           | Some t =>
               Some (tt, mkWorld (<[self := set_completed status t]> (heap w))
                                 (app w) (stdout w))
           | None => None
           end.

Definition __str__ (self : TaskObj) : string :=
  let status := if completed self then "Completed" else "Pending" in
  "Task: " +:+ title self +:+ ", Priority: " +:+ priority self
    +:+ ", Status: " +:+ status.

Definition new (title : string) (priority : option string) (now : Z) : M loc :=
  alloc (__init__ CTask title priority now).

End Task.

Module PriorityTask.

(** [def __init__(self, title, priority="High")] *)
Definition __init__ (title : string) (priority : option string) (now : Z)
    : TaskObj :=
  Task.__init__ CPriorityTask title (Some (default "High" priority)) now.

Definition new (title : string) (priority : option string) (now : Z) : M loc :=
  alloc (__init__ title priority now).

End PriorityTask.

Module RecurringTask.

(** [def __init__(self, title, recurrence)]: [super().__init__(title)] *)
Definition __init__ (title : string) (recurrence : string) (now : Z)
    : TaskObj :=
  Task.__init__ (CRecurringTask recurrence) title None now.

Definition __str__ (self : TaskObj) (recurrence : string) : string :=
  Task.__str__ self +:+ ", Recurrence: " +:+ recurrence.

Definition new (title : string) (recurrence : string) (now : Z) : M loc :=
  alloc (__init__ title recurrence now).

End RecurringTask.

Module SimpleTask.

(** [class SimpleTask(Task): pass] *)
Definition __init__ (title : string) (priority : option string) (now : Z)
    : TaskObj :=
  Task.__init__ CSimpleTask title priority now.

Definition new (title : string) (priority : option string) (now : Z) : M loc :=
  alloc (__init__ title priority now).

End SimpleTask.

Module AdvancedTask.

(** [def __init__(self, title, priority="Low", extra_notes=...)], the
    default of [extra_notes] being the empty text. *)
Definition __init__ (title : string) (priority : option string)
    (extra_notes : option string) (now : Z) : TaskObj :=
  Task.__init__ (CAdvancedTask (default EmptyString extra_notes)) title
    (Some (default "Low" priority)) now.

Definition __str__ (self : TaskObj) (extra_notes : string) : string :=
  Task.__str__ self +:+ ", Notes: " +:+ extra_notes.

Definition new (title : string) (priority : option string)
    (extra_notes : option string) (now : Z) : M loc :=
  alloc (__init__ title priority extra_notes now).

End AdvancedTask.

(** [str(task)]: the [__str__] of the object's class. *)
Definition str_obj (t : TaskObj) : string :=
  match cls t with
  | CRecurringTask recurrence => RecurringTask.__str__ t recurrence
  | CAdvancedTask extra_notes => AdvancedTask.__str__ t extra_notes
  | CTask | CPriorityTask | CSimpleTask => Task.__str__ t
  end.

Definition str (task : loc) : M string :=
  t ← deref task; mret (str_obj t).

(** ** class Reminder *)

Module Reminder.

Record t : Type := __init__ { reminder_type : string }.

(** [def send_reminder(self, task)] *)
Definition send_reminder (self : t) (task : loc) : M unit :=
  o ← deref task;
  print ("Reminder sent for task: " +:+ title o +:+ " via " +:+ reminder_type self).

End Reminder.

(** ** Reminder channels *)

(** [class ReminderInterface(ABC)] with its one abstract method. *)
Class ReminderInterface (R : Type) : Type :=
  set_reminder : R -> loc -> string -> M unit.

Module EmailReminder.

Inductive t : Type := new.

Definition set_reminder (self : t) (task : loc) (reminder_text : string)
    : M unit :=
  o ← deref task;
  print ("Email reminder for task '" +:+ title o +:+ "': " +:+ reminder_text).

End EmailReminder.

Module SMSReminder.

Inductive t : Type := new.

Definition set_reminder (self : t) (task : loc) (reminder_text : string)
    : M unit :=
  o ← deref task;
  print ("SMS reminder for task '" +:+ title o +:+ "': " +:+ reminder_text).

End SMSReminder.

#[global] Instance EmailReminder_interface : ReminderInterface EmailReminder.t :=
  EmailReminder.set_reminder.
#[global] Instance SMSReminder_interface : ReminderInterface SMSReminder.t :=
  SMSReminder.set_reminder.

(** ** class ReminderManager *)

Module ReminderManager.

(** [def __init__(self, reminder_service)]: the manager holds the channel it
    was given, whatever class implements the interface. *)
Record t (R : Type) `{ReminderInterface R} : Type := __init__ {
  reminder_service : R
}.
Arguments __init__ {R _} _.
Arguments reminder_service {R _} _.

(** [def send_reminder(self, task, reminder_text)] *)
Definition send_reminder {R : Type} `{ReminderInterface R}
    (self : t R) (task : loc) (reminder_text : string) : M unit :=
  set_reminder (reminder_service self) task reminder_text.

End ReminderManager.

(** ** class ToDoApp *)

Module ToDoApp.

(** [self.tasks = []] *)
Definition __init__ : ToDoAppObj := mkApp [].

(** [self.tasks.append(task)] *)
Definition append (task : loc) : M unit :=
  fun w => Some (tt, mkWorld (heap w) (mkApp (tasks (app w) ++ [task])) (stdout w)).

Definition add_task (task : loc) : M unit :=
  append task;;
  s ← str task;
  print ("Task added: " +:+ s).

Definition display_tasks : M unit :=
  ts ← get_tasks;
  match ts with
  | [] => print "No tasks available."
  | _ :: _ =>
      print "Tasks List:";;
      for_each (fun task => s ← str task; print s) ts
  end.

(** The loop of [find_task]: it returns at the first task whose title is the
    one looked for, and falls through at the end of the list. *)
Fixpoint find_task_loop (ts : list loc) (title_ : string) : M (option loc) :=
  match ts with
  | [] => mret None
  | task :: ts' =>
      o ← deref task;
      if String.eqb (title o) title_ then mret (Some task)
      else find_task_loop ts' title_
  end.

Definition find_task (title_ : string) : M (option loc) :=
  ts ← get_tasks;
  found ← find_task_loop ts title_;
  match found with
  | Some task => mret (Some task)
  | None => print ("Task '" +:+ title_ +:+ "' not found.");; mret None
  end.

(** [if task:] holds for every task object: the classes define neither
    [__bool__] nor [__len__], so only [None] is false. *)
Definition update_task_status (title_ : string) (status : bool) : M unit :=
  task ← find_task title_;
  match task with
  | Some task =>
      Task.update_status task status;;
      print ("Task '" +:+ title_ +:+ "' status updated to: "
               +:+ (if status then "Completed" else "Pending"))
  | None => mret tt
  end.

End ToDoApp.

(** ** Well-formed worlds *)

(** Every reference held by the application points into the store. *)
Definition allocated (h : gmap loc TaskObj) (l : loc) : bool :=
  match h !! l with
  | Some _ => true
  | None => false
  end.

Definition well_formed (w : World) : bool :=
  forallb (allocated (heap w)) (tasks (app w)).

(** The world a program starts in: no object, an application with an empty
    list, nothing printed. *)
Definition initial : World := mkWorld ∅ ToDoApp.__init__ [].

(** ** Looking a title up in a list of references *)

(** No task among [ts] carries the title [title_]. *)
Definition absent_in (w : World) (title_ : string) (ts : list loc) : Prop :=
  forall task o, task ∈ ts -> heap w !! task = Some o -> title o <> title_.

(** [task], at index [i] of [ts], is the first one that carries it. *)
Definition first_in (w : World) (title_ : string) (ts : list loc)
    (i : nat) (task : loc) (o : TaskObj) : Prop :=
  ts !! i = Some task /\ heap w !! task = Some o /\ title o = title_ /\
  forall j task' o', j < i -> ts !! j = Some task' ->
    heap w !! task' = Some o' -> title o' <> title_.

(** ** A sample world

    Four objects; the application lists the first one twice (one object, two
    entries) and the last two share a title. *)

Definition sample_heap : gmap loc TaskObj :=
  <[1%positive := Task.__init__ CTask "Buy groceries" None 10]>
  (<[2%positive := PriorityTask.__init__ "Complete project" None 11]>
  (<[3%positive := RecurringTask.__init__ "Workout" "Daily" 12]>
  (<[4%positive := AdvancedTask.__init__ "Workout" None (Some "Gym") 13]> ∅))).

Definition sample : World :=
  mkWorld sample_heap (mkApp [1; 2; 3; 4; 1]%positive) [].

(** The same store with an application that holds nothing yet. *)
Definition sample_empty : World := mkWorld sample_heap ToDoApp.__init__ [].

(** ** Titles *)

Definition title_nonempty (o : TaskObj) : Prop := title o <> EmptyString.

(** ** Programs

    What a caller of these classes can do, one call at a time: construct a
    task of one of the five classes, call a method of a task, of the
    application, or of a reminder manager bound to one of the two channels. *)

Inductive Call : Type :=
  | NewTask (title_ : string) (priority_ : option string) (now : Z)
  | NewPriorityTask (title_ : string) (priority_ : option string) (now : Z)
  | NewRecurringTask (title_ recurrence : string) (now : Z)
  | NewSimpleTask (title_ : string) (priority_ : option string) (now : Z)
  | NewAdvancedTask (title_ : string) (priority_ extra_notes : option string)
      (now : Z)
  | UpdateStatus (task : loc) (status : bool)
  | AddTask (task : loc)
  | DisplayTasks
  | FindTask (title_ : string)
  | UpdateTaskStatus (title_ : string) (status : bool)
  | SendReminder (reminder_type_ : string) (task : loc)
  | SendEmail (task : loc) (reminder_text : string)
  | SendSMS (task : loc) (reminder_text : string).

Definition call (c : Call) : M unit :=
  match c with
  | NewTask t p n => Task.new t p n;; mret tt
  | NewPriorityTask t p n => PriorityTask.new t p n;; mret tt
  | NewRecurringTask t r n => RecurringTask.new t r n;; mret tt
  | NewSimpleTask t p n => SimpleTask.new t p n;; mret tt
  | NewAdvancedTask t p e n => AdvancedTask.new t p e n;; mret tt
  | UpdateStatus task status => Task.update_status task status
  | AddTask task => ToDoApp.add_task task
  | DisplayTasks => ToDoApp.display_tasks
  | FindTask t => ToDoApp.find_task t;; mret tt
  | UpdateTaskStatus t status => ToDoApp.update_task_status t status
  | SendReminder r task => Reminder.send_reminder (Reminder.__init__ r) task
  | SendEmail task text =>
      ReminderManager.send_reminder
        (ReminderManager.__init__ EmailReminder.new) task text
  | SendSMS task text =>
      ReminderManager.send_reminder
        (ReminderManager.__init__ SMSReminder.new) task text
  end.

Definition run (cs : list Call) : M unit := for_each call cs.

(** A computation that, when it returns, leaves the store as it found it. *)
Definition heap_pres {A : Type} (m : M A) : Prop :=
  forall w a w', m w = Some (a, w') -> heap w' = heap w.

(** Every [RecurringTask] of the store has priority "Medium". *)
Definition recurring_medium (h : gmap loc TaskObj) : Prop :=
  forall l o recurrence,
    h !! l = Some o -> cls o = CRecurringTask recurrence -> priority o = "Medium".

(** A computation that returns having added one line of output and changed
    nothing else. *)
Definition only_prints (m : M unit) (w : World) : Prop :=
  exists w' line,
    m w = Some (tt, w') /\ heap w' = heap w /\ app w' = app w /\
    stdout w' = stdout w ++ [line].

(** ** What a call can change *)

(** [o'] is [o] up to its [completed] attribute. *)
Definition same_but_completed (o o' : TaskObj) : Prop :=
  title o' = title o /\ priority o' = priority o /\
  created_at o' = created_at o /\ cls o' = cls o.

(** Every object of [h] is still in [h'], under the same reference and up
    to its [completed] attribute. *)
Definition frozen (h h' : gmap loc TaskObj) : Prop :=
  forall l o, h !! l = Some o ->
    exists o', h' !! l = Some o' /\ same_but_completed o o'.

(** The calls that reach the assignment [self.completed = status]. *)
Definition sets_status (c : Call) : bool :=
  match c with
  | UpdateStatus _ _ | UpdateTaskStatus _ _ => true
  | _ => false
  end.

(** The arguments of the [add_task] calls of a program, in call order. *)
Definition added (cs : list Call) : list loc :=
  omap (fun c => match c with AddTask task => Some task | _ => None end) cs.

(** The three ways the store after a call relates to the store before. *)
Inductive heap_step (c : Call) (h h' : gmap loc TaskObj) : Prop :=
  | step_same : h' = h -> heap_step c h h'
  | step_new (l : loc) (o : TaskObj) :
      h !! l = None -> h' = <[l := o]> h -> heap_step c h h'
  | step_status (l : loc) (o : TaskObj) (status : bool) :
      sets_status c = true -> h !! l = Some o ->
      h' = <[l := Task.set_completed status o]> h -> heap_step c h h'.

(** A computation that, when it returns, leaves the application's list as
    it found it. *)
Definition app_pres {A : Type} (m : M A) : Prop :=
  forall w a w', m w = Some (a, w') -> app w' = app w.

(** ** Tasks of a subclass seen as tasks of the base class

    [PriorityTask] and [SimpleTask] add no attribute and override no method
    but the constructor's default; these definitions turn their objects, and
    the calls that construct them, into base [Task] ones. *)

Definition as_task_cls (c : TaskClass) : TaskClass :=
  match c with
  | CPriorityTask | CSimpleTask => CTask
  | CTask | CRecurringTask _ | CAdvancedTask _ => c
  end.

Definition as_task (o : TaskObj) : TaskObj :=
  mkTask (title o) (completed o) (priority o) (created_at o)
    (as_task_cls (cls o)).

Definition as_task_world (w : World) : World :=
  mkWorld (as_task <$> heap w) (app w) (stdout w).

Definition with_base_class (c : Call) : Call :=
  match c with
  | NewPriorityTask t p n => NewTask t (Some (default "High" p)) n
  | NewSimpleTask t p n => NewTask t p n
  | _ => c
  end.

(** [m'] does in the base-class world what [m] does in the original one,
    the results being related by [f]. *)
Definition sim {A : Type} (f : A -> A) (m m' : M A) : Prop :=
  forall w, m' (as_task_world w) = prod_map f as_task_world <$> m w.

(** ** The script under [if __name__ == "__main__":]

    The four arguments are the readings of the clock at the four
    constructions. *)
Definition main (now1 now2 now3 now4 : Z) : M unit :=
  task1 ← Task.new "Buy groceries" None now1;
  task2 ← PriorityTask.new "Complete project" (Some "High") now2;
  task3 ← RecurringTask.new "Workout" "Daily" now3;
  task4 ← AdvancedTask.new "Plan vacation" (Some "Medium")
            (Some "Include family preferences.") now4;
  ToDoApp.add_task task1;;
  ToDoApp.add_task task2;;
  ToDoApp.add_task task3;;
  ToDoApp.add_task task4;;
  ToDoApp.display_tasks;;
  ToDoApp.update_task_status "Buy groceries" true;;
  let email_reminder := EmailReminder.new in
  let sms_reminder := SMSReminder.new in
  let email_manager := ReminderManager.__init__ email_reminder in
  let sms_manager := ReminderManager.__init__ sms_reminder in
  ReminderManager.send_reminder email_manager task2 "Deadline is tomorrow!";;
  ReminderManager.send_reminder sms_manager task3 "Don't forget your workout!".

(** The calls that take no reference from the caller. *)
Definition takes_no_reference (c : Call) : bool :=
  match c with
  | DisplayTasks | FindTask _ | UpdateTaskStatus _ _ => true
  | _ => false
  end.

(** * Properties *)

(** ** Strings *)

Lemma append_assoc (a b c : string) : (a +:+ b) +:+ c = a +:+ b +:+ c.
Proof.
  induction a as [|ch a IH]; [reflexivity |].
  change (String ch ((a +:+ b) +:+ c) = String ch (a +:+ b +:+ c)).
  rewrite IH. reflexivity.
Qed.

(** ** Running computations *)

Ltac unfold_M :=
  unfold str, print, deref, get_tasks, mbind, M_bind, bind, mret, M_ret, ret in *.

Lemma allocated_true (h : gmap loc TaskObj) (l : loc) :
  allocated h l = true -> exists o, h !! l = Some o.
Proof. unfold allocated. destruct (h !! l) as [o|]; [eauto | discriminate]. Qed.

Lemma allocated_lookup (h : gmap loc TaskObj) (l : loc) (o : TaskObj) :
  h !! l = Some o -> allocated h l = true.
Proof. unfold allocated. by intros ->. Qed.

Lemma bind_Some {A B : Type} (m : M A) (k : A -> M B) (w w' : World) (a : A) :
  m w = Some (a, w') -> (m ≫= k) w = k a w'.
Proof. unfold_M. by intros ->. Qed.

Lemma str_lookup (w : World) (l : loc) (o : TaskObj) :
  heap w !! l = Some o -> str l w = Some (str_obj o, w).
Proof. unfold_M. by intros ->. Qed.

(** ** find_task *)

Section FindTask.

Variable w : World.
Variable title_ : string.

Lemma find_task_loop_first (ts : list loc) (i : nat) (task : loc) (o : TaskObj) :
  forallb (allocated (heap w)) ts = true ->
  first_in w title_ ts i task o ->
  ToDoApp.find_task_loop ts title_ w = Some (Some task, w).
Proof.
  revert i. induction ts as [|l ts IH]; intros i Hwf (Hi & Ho & Ht & Hbefore).
  - rewrite lookup_nil in Hi. discriminate.
  - simpl in Hwf. apply andb_prop in Hwf as [Hl Hts].
    apply allocated_true in Hl as [o' Ho'].
    simpl. unfold_M. rewrite Ho'.
    destruct i as [|i]; simpl in Hi.
    + injection Hi as ->. rewrite Ho in Ho'. injection Ho' as <-.
      apply String.eqb_eq in Ht. by rewrite Ht.
    + assert (Hne : title o' <> title_).
      { apply (Hbefore 0 l o'); [lia | reflexivity | exact Ho']. }
      apply String.eqb_neq in Hne. rewrite Hne.
      apply (IH i Hts). repeat split; try assumption.
      intros j task' o'' Hj Hlk. apply (Hbefore (S j) task' o''); [lia | exact Hlk].
Qed.

Lemma find_task_loop_absent (ts : list loc) :
  forallb (allocated (heap w)) ts = true ->
  absent_in w title_ ts ->
  ToDoApp.find_task_loop ts title_ w = Some (None, w).
Proof.
  induction ts as [|l ts IH]; intros Hwf Habs; [reflexivity |].
  simpl in Hwf. apply andb_prop in Hwf as [Hl Hts].
  apply allocated_true in Hl as [o Ho].
  simpl. unfold_M. rewrite Ho.
  assert (Hne : title o <> title_).
  { apply (Habs l o); [left | exact Ho]. }
  apply String.eqb_neq in Hne. rewrite Hne.
  apply (IH Hts). intros task o' Hin. apply Habs. by right.
Qed.

End FindTask.

Lemma find_task_found (w : World) (title_ : string) (task : loc) :
  ToDoApp.find_task_loop (tasks (app w)) title_ w = Some (Some task, w) ->
  ToDoApp.find_task title_ w = Some (Some task, w).
Proof. intros H. unfold ToDoApp.find_task. unfold_M. by rewrite H. Qed.

Lemma find_task_not_found (w : World) (title_ : string) :
  ToDoApp.find_task_loop (tasks (app w)) title_ w = Some (None, w) ->
  ToDoApp.find_task title_ w =
    Some (None, mkWorld (heap w) (app w)
                  (stdout w ++ ["Task '" +:+ title_ +:+ "' not found."])).
Proof. intros H. unfold ToDoApp.find_task. unfold_M. by rewrite H. Qed.

(** C2. [find_task] returns the first task, in the order of the list, whose
    title is exactly the one looked for, printing nothing and changing
    nothing.  When no task of the list has that title (in particular when
    the list is empty) it returns [None]; the store and the list are as
    before and the one new line of output is the "not found" message. *)
Theorem find_task_first_or_absent (w : World) (title_ : string) :
  well_formed w = true ->
  (forall i task o,
      first_in w title_ (tasks (app w)) i task o ->
      ToDoApp.find_task title_ w = Some (Some task, w)) /\
  (absent_in w title_ (tasks (app w)) ->
   ToDoApp.find_task title_ w =
     Some (None, mkWorld (heap w) (app w)
                   (stdout w ++ ["Task '" +:+ title_ +:+ "' not found."]))).
Proof.
  intros Hwf. split.
  - intros i task o Hfirst. apply find_task_found.
    exact (find_task_loop_first w title_ _ i task o Hwf Hfirst).
  - intros Habs. apply find_task_not_found.
    exact (find_task_loop_absent w title_ _ Hwf Habs).
Qed.

Lemma find_task_witness :
  ToDoApp.find_task "Workout" sample = Some (Some 3%positive, sample) /\
  ToDoApp.find_task "workout" sample =
    Some (None, mkWorld (heap sample) (app sample)
                  (stdout sample ++ ["Task '" +:+ "workout" +:+ "' not found."])).
Proof.
  destruct (find_task_first_or_absent sample "Workout" eq_refl) as [Hfirst _].
  destruct (find_task_first_or_absent sample "workout" eq_refl) as [_ Habs].
  split.
  - apply (Hfirst 2 3%positive (RecurringTask.__init__ "Workout" "Daily" 12)).
    repeat split; try reflexivity.
    intros [|[|j]] task' o' Hj Hlk Ho; [| |lia]; simpl in Hlk;
      injection Hlk as <-; vm_compute in Ho; injection Ho as <-; discriminate.
  - apply Habs. intros task o Hin Ho.
    repeat (apply elem_of_cons in Hin as [-> | Hin];
            [vm_compute in Ho; injection Ho as <-; discriminate |]).
    by apply elem_of_nil in Hin.
Defined.

(** ** update_task_status *)

(** C1. With a title carried by some task of the list, [update_task_status]
    assigns the new status to the [completed] attribute of the first such
    task and to nothing else: that object keeps its title, priority, creation
    time and class attributes, every other object of the store is as before,
    and so is the list.  With a title carried by no task, store and list are
    as before (the "not found" line is the only effect). *)
Theorem update_task_status_frame (w : World) (title_ : string) (status : bool) :
  well_formed w = true ->
  (forall i task o,
      first_in w title_ (tasks (app w)) i task o ->
      exists w',
        ToDoApp.update_task_status title_ status w = Some (tt, w') /\
        heap w' !! task =
          Some (mkTask (title o) status (priority o) (created_at o) (cls o)) /\
        (forall l, l <> task -> heap w' !! l = heap w !! l) /\
        app w' = app w /\
        stdout w' =
          stdout w ++ ["Task '" +:+ title_ +:+ "' status updated to: "
                         +:+ (if status then "Completed" else "Pending")]) /\
  (absent_in w title_ (tasks (app w)) ->
   exists w',
     ToDoApp.update_task_status title_ status w = Some (tt, w') /\
     heap w' = heap w /\
     app w' = app w /\
     stdout w' = stdout w ++ ["Task '" +:+ title_ +:+ "' not found."]).
Proof.
  intros Hwf. split.
  - intros i task o Hf. pose proof Hf as (_ & Ho & _).
    pose proof (find_task_found w title_ task
                  (find_task_loop_first w title_ _ i task o Hwf Hf)) as Hfind.
    unfold ToDoApp.update_task_status.
    rewrite (bind_Some _ _ _ _ _ Hfind).
    unfold Task.update_status. unfold_M. rewrite Ho. simpl.
    eexists. split; [reflexivity |]. simpl. repeat split.
    + apply lookup_insert_eq.
    + intros l Hl. by apply lookup_insert_ne.
  - intros Ha.
    pose proof (find_task_not_found w title_
                  (find_task_loop_absent w title_ _ Hwf Ha)) as Hfind.
    unfold ToDoApp.update_task_status.
    rewrite (bind_Some _ _ _ _ _ Hfind).
    eexists. split; [reflexivity |]. by simpl.
Qed.

Lemma update_task_status_witness :
  exists w',
    ToDoApp.update_task_status "Workout" true sample = Some (tt, w') /\
    heap w' !! 3%positive =
      Some (mkTask "Workout" true "Medium" 12 (CRecurringTask "Daily")) /\
    (forall l, l <> 3%positive -> heap w' !! l = heap sample !! l) /\
    app w' = app sample /\
    stdout w' = ["Task 'Workout' status updated to: Completed"].
Proof.
  destruct (update_task_status_frame sample "Workout" true eq_refl) as [Hfirst _].
  apply (Hfirst 2 3%positive (RecurringTask.__init__ "Workout" "Daily" 12)).
  repeat split; try reflexivity.
  intros [|[|j]] task' o' Hj Hlk Ho; [| |lia]; simpl in Hlk;
    injection Hlk as <-; vm_compute in Ho; injection Ho as <-; discriminate.
Defined.

(** ** Rendering *)

Lemma Task_str_status (o : TaskObj) :
  Task.__str__ o =
    ("Task: " +:+ title o +:+ ", Priority: " +:+ priority o +:+ ", ")
      +:+ "Status: " +:+ (if completed o then "Completed" else "Pending").
Proof.
  unfold Task.__str__. rewrite !append_assoc.
  do 4 f_equal.
Qed.

(** C3. The text of a task is
    "Task: {title}, Priority: {priority}, Status: {Completed|Pending}", the
    last word following the [completed] attribute.  [Task], [PriorityTask]
    and [SimpleTask] render as exactly that; [RecurringTask] and
    [AdvancedTask] render as the base text followed by
    ", Recurrence: {recurrence}" and ", Notes: {extra_notes}". *)
Theorem str_format (w : World) (task : loc) (o : TaskObj) :
  heap w !! task = Some o ->
  exists s,
    str task w = Some (s, w) /\
    Task.__str__ o =
      "Task: " +:+ title o +:+ ", Priority: " +:+ priority o +:+ ", Status: "
        +:+ (if completed o then "Completed" else "Pending") /\
    match cls o with
    | CTask | CPriorityTask | CSimpleTask => s = Task.__str__ o
    | CRecurringTask recurrence =>
        s = Task.__str__ o +:+ ", Recurrence: " +:+ recurrence /\
        s = "Task: " +:+ title o +:+ ", Priority: " +:+ priority o
              +:+ ", Status: " +:+ (if completed o then "Completed" else "Pending")
              +:+ ", Recurrence: " +:+ recurrence
    | CAdvancedTask extra_notes =>
        s = Task.__str__ o +:+ ", Notes: " +:+ extra_notes /\
        s = "Task: " +:+ title o +:+ ", Priority: " +:+ priority o
              +:+ ", Status: " +:+ (if completed o then "Completed" else "Pending")
              +:+ ", Notes: " +:+ extra_notes
    end.
Proof.
  intros Ho. exists (str_obj o). split; [by apply str_lookup |].
  split; [reflexivity |].
  unfold str_obj, RecurringTask.__str__, AdvancedTask.__str__.
  destruct (cls o) as [| |recurrence| |extra_notes]; try reflexivity.
  - split; [reflexivity |]. unfold Task.__str__. by rewrite !append_assoc.
  - split; [reflexivity |]. unfold Task.__str__. by rewrite !append_assoc.
Qed.

Lemma str_format_witness :
  exists s,
    str 3%positive sample = Some (s, sample) /\
    s = "Task: Workout, Priority: Medium, Status: Pending, Recurrence: Daily".
Proof.
  destruct (str_format sample 3%positive
              (RecurringTask.__init__ "Workout" "Daily" 12) eq_refl)
    as (s & Hs & _ & _ & Hfmt).
  exists s. split; [exact Hs | exact Hfmt].
Defined.

(** ** update_status *)

(** C5. After [update_status(True)] the text of the task shows
    "Status: Completed", after [update_status(False)] it shows
    "Status: Pending" (between the unchanged title and priority and the
    unchanged class suffix); calling [update_status] a second time with the
    same argument leaves the world as the first call left it. *)
Theorem update_status_render_idempotent (w : World) (task : loc) (o : TaskObj)
    (status : bool) :
  heap w !! task = Some o ->
  exists w1,
    Task.update_status task status w = Some (tt, w1) /\
    str task w1 =
      Some (("Task: " +:+ title o +:+ ", Priority: " +:+ priority o +:+ ", ")
              +:+ ("Status: " +:+ (if status then "Completed" else "Pending"))
              +:+ match cls o with
                  | CRecurringTask recurrence => ", Recurrence: " +:+ recurrence
                  | CAdvancedTask extra_notes => ", Notes: " +:+ extra_notes
                  | CTask | CPriorityTask | CSimpleTask => EmptyString
                  end, w1) /\
    Task.update_status task status w1 = Some (tt, w1) /\
    (Task.update_status task status;; Task.update_status task status) w =
      Task.update_status task status w.
Proof.
  intros Ho.
  assert (Hrun : Task.update_status task status w =
    Some (tt, mkWorld (<[task := Task.set_completed status o]> (heap w))
                (app w) (stdout w))).
  { unfold Task.update_status. by rewrite Ho. }
  assert (Hagain : Task.update_status task status
      (mkWorld (<[task := Task.set_completed status o]> (heap w)) (app w) (stdout w)) =
    Some (tt, mkWorld (<[task := Task.set_completed status o]> (heap w))
                (app w) (stdout w))).
  { unfold Task.update_status. simpl. rewrite lookup_insert_eq.
    by rewrite insert_insert_eq. }
  eexists. split; [exact Hrun |]. split; [| split].
  - erewrite str_lookup; [| simpl; apply lookup_insert_eq].
    f_equal. f_equal.
    unfold str_obj, RecurringTask.__str__, AdvancedTask.__str__. simpl.
    rewrite Task_str_status. simpl.
    destruct (cls o) as [| |recurrence| |extra_notes]; rewrite ?append_assoc;
      try reflexivity.
    + do 4 f_equal. destruct status; reflexivity.
    + do 4 f_equal. destruct status; reflexivity.
    + do 4 f_equal. destruct status; reflexivity.
  - exact Hagain.
  - rewrite (bind_Some _ _ _ _ _ Hrun). rewrite Hagain. by rewrite Hrun.
Qed.

Lemma update_status_render_idempotent_witness :
  exists w1,
    Task.update_status 4%positive true sample = Some (tt, w1) /\
    str 4%positive w1 =
      Some ("Task: Workout, Priority: Low, Status: Completed, Notes: Gym", w1) /\
    Task.update_status 4%positive true w1 = Some (tt, w1).
Proof.
  destruct (update_status_render_idempotent sample 4%positive
              (AdvancedTask.__init__ "Workout" None (Some "Gym") 13) true eq_refl)
    as (w1 & Hrun & Hstr & Hagain & _).
  exists w1. split; [exact Hrun |]. split; [exact Hstr | exact Hagain].
Defined.

(** ** Constructors *)

Lemma alloc_spec (o : TaskObj) (w : World) :
  exists l,
    alloc o w = Some (l, mkWorld (<[l := o]> (heap w)) (app w) (stdout w)) /\
    heap w !! l = None.
Proof.
  exists (fresh (dom (heap w))). split; [reflexivity |].
  apply not_elem_of_dom. apply is_fresh.
Qed.

(** C7. Without a priority argument a [Task] gets priority "Medium", a
    [PriorityTask] "High" and an [AdvancedTask] "Low"; this is the priority
    of the object that the constructor call puts in the store. *)
Theorem default_priorities (title_ : string) (extra_notes : option string)
    (now : Z) (w : World) :
  priority (Task.__init__ CTask title_ None now) = "Medium" /\
  priority (PriorityTask.__init__ title_ None now) = "High" /\
  priority (AdvancedTask.__init__ title_ None extra_notes now) = "Low" /\
  (exists l w' o, Task.new title_ None now w = Some (l, w') /\
     heap w' !! l = Some o /\ cls o = CTask /\ priority o = "Medium") /\
  (exists l w' o, PriorityTask.new title_ None now w = Some (l, w') /\
     heap w' !! l = Some o /\ cls o = CPriorityTask /\ priority o = "High") /\
  (exists l w' o, AdvancedTask.new title_ None extra_notes now w = Some (l, w') /\
     heap w' !! l = Some o /\ cls o = CAdvancedTask (default EmptyString extra_notes) /\
     priority o = "Low").
Proof.
  repeat split.
  - destruct (alloc_spec (Task.__init__ CTask title_ None now) w) as (l & Hl & _).
    eexists l, _, _. split; [exact Hl |]. split; [apply lookup_insert_eq |]. by split.
  - destruct (alloc_spec (PriorityTask.__init__ title_ None now) w) as (l & Hl & _).
    eexists l, _, _. split; [exact Hl |]. split; [apply lookup_insert_eq |]. by split.
  - destruct (alloc_spec (AdvancedTask.__init__ title_ None extra_notes now) w)
      as (l & Hl & _).
    eexists l, _, _. split; [exact Hl |]. split; [apply lookup_insert_eq |]. by split.
Qed.

(** C8, as stated, fails: the constructor takes the empty text as a title. *)
Lemma title_may_be_empty :
  ~ title_nonempty (Task.__init__ CTask EmptyString None 0).
Proof. intros H. apply H. reflexivity. Qed.

(** C8, amended. The title of a constructed task, of whatever class, is the
    text given as the title argument, unchecked; so it is non-empty exactly
    when that argument is. *)
Theorem title_is_argument (title_ : string) (priority_ extra_notes : option string)
    (recurrence : string) (now : Z) :
  Forall (fun o => title o = title_ /\
                   (title_nonempty o <-> title_ <> EmptyString))
    [ Task.__init__ CTask title_ priority_ now;
      PriorityTask.__init__ title_ priority_ now;
      RecurringTask.__init__ title_ recurrence now;
      SimpleTask.__init__ title_ priority_ now;
      AdvancedTask.__init__ title_ priority_ extra_notes now ].
Proof. repeat constructor; auto. Qed.

(** ** Reminders *)

Lemma reminder_channels_label_aux (w : World) (task : loc) (o : TaskObj)
    (reminder_text : string) :
  heap w !! task = Some o ->
  EmailReminder.set_reminder EmailReminder.new task reminder_text w =
    Some (tt, mkWorld (heap w) (app w)
                (stdout w ++ ["Email reminder for task '" +:+ title o +:+ "': "
                                +:+ reminder_text])) /\
  SMSReminder.set_reminder SMSReminder.new task reminder_text w =
    Some (tt, mkWorld (heap w) (app w)
                (stdout w ++ ["SMS reminder for task '" +:+ title o +:+ "': "
                                +:+ reminder_text])).
Proof.
  intros Ho. unfold EmailReminder.set_reminder, SMSReminder.set_reminder.
  unfold_M. by rewrite Ho.
Qed.

(** C6. Through a manager bound to an [EmailReminder] and through one bound
    to an [SMSReminder], the same task and text give two lines that differ
    in the leading medium label only; the rest of the line, with the task's
    title and the text, is the same.  Whatever the channel, the manager's
    [send_reminder] is the channel's [set_reminder] on the same arguments. *)
Theorem reminder_channels_differ_in_label (w : World) (task : loc) (o : TaskObj)
    (reminder_text : string) :
  heap w !! task = Some o ->
  let rest := " reminder for task '" +:+ title o +:+ "': " +:+ reminder_text in
  ReminderManager.send_reminder (ReminderManager.__init__ EmailReminder.new)
      task reminder_text w =
    Some (tt, mkWorld (heap w) (app w) (stdout w ++ ["Email" +:+ rest])) /\
  ReminderManager.send_reminder (ReminderManager.__init__ SMSReminder.new)
      task reminder_text w =
    Some (tt, mkWorld (heap w) (app w) (stdout w ++ ["SMS" +:+ rest])) /\
  (forall (R : Type) (I : ReminderInterface R) (svc : R),
      ReminderManager.send_reminder (ReminderManager.__init__ svc)
        task reminder_text =
      set_reminder svc task reminder_text).
Proof.
  intros Ho rest. repeat split.
  - unfold ReminderManager.send_reminder, set_reminder, EmailReminder_interface,
      EmailReminder.set_reminder. unfold_M. simpl. by rewrite Ho.
  - unfold ReminderManager.send_reminder, set_reminder, SMSReminder_interface,
      SMSReminder.set_reminder. unfold_M. simpl. by rewrite Ho.
Qed.

Lemma reminder_channels_differ_in_label_witness :
  ReminderManager.send_reminder (ReminderManager.__init__ EmailReminder.new)
      2%positive "Deadline is tomorrow!" sample =
    Some (tt, mkWorld (heap sample) (app sample)
                ["Email reminder for task 'Complete project': Deadline is tomorrow!"]) /\
  ReminderManager.send_reminder (ReminderManager.__init__ SMSReminder.new)
      2%positive "Deadline is tomorrow!" sample =
    Some (tt, mkWorld (heap sample) (app sample)
                ["SMS reminder for task 'Complete project': Deadline is tomorrow!"]).
Proof.
  destruct (reminder_channels_differ_in_label sample 2%positive
              (PriorityTask.__init__ "Complete project" None 11)
              "Deadline is tomorrow!" eq_refl) as (He & Hs & _).
  split; [exact He | exact Hs].
Defined.

(** C10. Sending a reminder, through a manager bound to either channel or
    through the channel itself, returns with the store (every attribute of
    every task) and the application's list as they were; one line of output
    is added.  The manager is a value the method only reads. *)
Theorem send_reminder_frame (w : World) (task : loc) (reminder_text : string) :
  allocated (heap w) task = true ->
  only_prints
    (ReminderManager.send_reminder (ReminderManager.__init__ EmailReminder.new)
       task reminder_text) w /\
  only_prints
    (ReminderManager.send_reminder (ReminderManager.__init__ SMSReminder.new)
       task reminder_text) w /\
  only_prints (EmailReminder.set_reminder EmailReminder.new task reminder_text) w /\
  only_prints (SMSReminder.set_reminder SMSReminder.new task reminder_text) w /\
  ReminderManager.reminder_service (ReminderManager.__init__ EmailReminder.new) =
    EmailReminder.new /\
  ReminderManager.reminder_service (ReminderManager.__init__ SMSReminder.new) =
    SMSReminder.new.
Proof.
  intros Hal. apply allocated_true in Hal as [o Ho].
  destruct (reminder_channels_label_aux w task o reminder_text Ho) as (He & Hs).
  unfold only_prints. repeat split; eexists _, _; (split; [eassumption |]); by simpl.
Qed.

Lemma send_reminder_frame_witness :
  only_prints
    (ReminderManager.send_reminder (ReminderManager.__init__ SMSReminder.new)
       3%positive "Don't forget your workout!") sample.
Proof.
  destruct (send_reminder_frame sample 3%positive "Don't forget your workout!"
              eq_refl) as (_ & Hs & _).
  exact Hs.
Defined.

(** ** add_task and display_tasks *)

Lemma add_task_appends (w : World) (task : loc) (o : TaskObj) :
  heap w !! task = Some o ->
  ToDoApp.add_task task w =
    Some (tt, mkWorld (heap w) (mkApp (tasks (app w) ++ [task]))
                (stdout w ++ ["Task added: " +:+ str_obj o])).
Proof.
  intros Ho. unfold ToDoApp.add_task, ToDoApp.append. unfold_M. simpl.
  by rewrite Ho.
Qed.

Lemma add_tasks_append (ts : list loc) (objs : list TaskObj) (w : World) :
  Forall2 (fun task o => heap w !! task = Some o) ts objs ->
  for_each ToDoApp.add_task ts w =
    Some (tt, mkWorld (heap w) (mkApp (tasks (app w) ++ ts))
                (stdout w ++ map (fun o => "Task added: " +:+ str_obj o) objs)).
Proof.
  intros H. revert objs w H. induction ts as [|task ts IH]; intros objs w H.
  - apply Forall2_nil_inv_l in H as ->. simpl. unfold_M.
    rewrite !app_nil_r. by destruct w as [h [ts] out].
  - apply Forall2_cons_inv_l in H as (o & objs' & Ho & Hrest & ->).
    simpl. rewrite (bind_Some _ _ _ _ _ (add_task_appends w task o Ho)).
    rewrite (IH objs'); [| exact Hrest]. simpl.
    by rewrite <- !app_assoc.
Qed.

Lemma display_loop_prints (ts : list loc) (objs : list TaskObj) (w : World) :
  Forall2 (fun task o => heap w !! task = Some o) ts objs ->
  for_each (fun task => s ← str task; print s) ts w =
    Some (tt, mkWorld (heap w) (app w) (stdout w ++ map str_obj objs)).
Proof.
  intros H. revert objs w H. induction ts as [|task ts IH]; intros objs w H.
  - apply Forall2_nil_inv_l in H as ->. simpl. unfold_M.
    rewrite app_nil_r. by destruct w.
  - apply Forall2_cons_inv_l in H as (o & objs' & Ho & Hrest & ->).
    simpl.
    assert (Hstep : (s ← str task; print s) w =
      Some (tt, mkWorld (heap w) (app w) (stdout w ++ [str_obj o]))).
    { unfold_M. by rewrite Ho. }
    rewrite (bind_Some _ _ _ _ _ Hstep).
    rewrite (IH objs'); [| exact Hrest]. simpl.
    by rewrite <- !app_assoc.
Qed.

(** C4. Starting from an application with an empty list, a sequence of
    [add_task] calls on tasks [ts] returns; each call puts its task at the
    end of the list and prints "Task added: " followed by the task's text.
    A following [display_tasks] prints, after the header, one entry per
    added task, as many as were added and in the order they were added, and
    changes neither the store nor the list.  When nothing was added it
    prints the single line "No tasks available.". *)
Theorem add_tasks_then_display (w : World) (ts : list loc) (objs : list TaskObj) :
  tasks (app w) = [] ->
  Forall2 (fun task o => heap w !! task = Some o) ts objs ->
  (forall w0 task o, heap w0 !! task = Some o ->
     ToDoApp.add_task task w0 =
       Some (tt, mkWorld (heap w0) (mkApp (tasks (app w0) ++ [task]))
                   (stdout w0 ++ ["Task added: " +:+ str_obj o]))) /\
  exists w1 w2,
    for_each ToDoApp.add_task ts w = Some (tt, w1) /\
    heap w1 = heap w /\
    tasks (app w1) = ts /\
    stdout w1 = stdout w ++ map (fun o => "Task added: " +:+ str_obj o) objs /\
    ToDoApp.display_tasks w1 = Some (tt, w2) /\
    heap w2 = heap w1 /\
    app w2 = app w1 /\
    stdout w2 =
      stdout w1 ++ match ts with
                   | [] => ["No tasks available."]
                   | _ :: _ => "Tasks List:" :: map str_obj objs
                   end /\
    length (map str_obj objs) = length ts.
Proof.
  intros Hempty Hobjs. split; [exact add_task_appends |].
  pose proof (add_tasks_append ts objs w Hobjs) as Hadd.
  rewrite Hempty in Hadd. simpl in Hadd.
  set (w1 := mkWorld (heap w) (mkApp ts)
               (stdout w ++ map (fun o => "Task added: " +:+ str_obj o) objs)) in *.
  exists w1.
  exists (mkWorld (heap w1) (app w1)
            (stdout w1 ++ match ts with
                          | [] => ["No tasks available."]
                          | _ :: _ => "Tasks List:" :: map str_obj objs
                          end)).
  split; [exact Hadd |].
  do 3 (split; [reflexivity |]).
  split; [| split; [reflexivity | split; [reflexivity | split; [reflexivity |]]]].
  - unfold ToDoApp.display_tasks.
    rewrite (bind_Some get_tasks _ w1 w1 ts eq_refl).
    destruct ts as [|task ts]; [reflexivity |].
    rewrite (bind_Some (print "Tasks List:") _ w1 _ tt eq_refl).
    rewrite (display_loop_prints (task :: ts) objs
               (mkWorld (heap w1) (app w1) (stdout w1 ++ ["Tasks List:"])) Hobjs).
    simpl. by rewrite <- app_assoc.
  - rewrite length_map. symmetry. by eapply Forall2_length.
Qed.

Lemma add_tasks_then_display_witness :
  exists w1 w2,
    for_each ToDoApp.add_task [1; 3; 1]%positive sample_empty = Some (tt, w1) /\
    tasks (app w1) = [1; 3; 1]%positive /\
    ToDoApp.display_tasks w1 = Some (tt, w2) /\
    stdout w2 =
      stdout w1 ++
        [ "Tasks List:";
          "Task: Buy groceries, Priority: Medium, Status: Pending";
          "Task: Workout, Priority: Medium, Status: Pending, Recurrence: Daily";
          "Task: Buy groceries, Priority: Medium, Status: Pending" ].
Proof.
  destruct (add_tasks_then_display sample_empty [1; 3; 1]%positive
              [ Task.__init__ CTask "Buy groceries" None 10;
                RecurringTask.__init__ "Workout" "Daily" 12;
                Task.__init__ CTask "Buy groceries" None 10 ])
    as (_ & w1 & w2 & Hadd & _ & Hts & _ & Hdisp & _ & _ & Hout & _).
  - reflexivity.
  - repeat constructor.
  - exists w1, w2. split; [exact Hadd |]. split; [exact Hts |].
    split; [exact Hdisp | exact Hout].
Defined.

(** ** What a program can do to the store *)

Lemma heap_pres_ret {A : Type} (a : A) : heap_pres (mret a).
Proof. intros w a' w' [= _ <-]. reflexivity. Qed.

Lemma heap_pres_bind {A B : Type} (m : M A) (k : A -> M B) :
  heap_pres m -> (forall a, heap_pres (k a)) -> heap_pres (m ≫= k).
Proof.
  intros Hm Hk w b w'. unfold mbind, M_bind, bind.
  destruct (m w) as [[a w1]|] eqn:E; [| discriminate].
  intros Hrun. rewrite (Hk a _ _ _ Hrun). exact (Hm _ _ _ E).
Qed.

Lemma heap_pres_print (s : string) : heap_pres (print s).
Proof. intros w a w' [= _ <-]. reflexivity. Qed.

Lemma heap_pres_deref (l : loc) : heap_pres (deref l).
Proof.
  intros w a w'. unfold deref. destruct (heap w !! l); [| discriminate].
  intros [= _ <-]. reflexivity.
Qed.

Lemma heap_pres_get_tasks : heap_pres get_tasks.
Proof. intros w a w' [= _ <-]. reflexivity. Qed.

Lemma heap_pres_append (task : loc) : heap_pres (ToDoApp.append task).
Proof. intros w a w' [= _ <-]. reflexivity. Qed.

Lemma heap_pres_for_each {A : Type} (body : A -> M unit) (xs : list A) :
  (forall x, heap_pres (body x)) -> heap_pres (for_each body xs).
Proof.
  intros Hbody. induction xs as [|x xs IH]; simpl.
  - apply heap_pres_ret.
  - apply heap_pres_bind; [apply Hbody | intros _; exact IH].
Qed.

Lemma heap_pres_str (task : loc) : heap_pres (str task).
Proof.
  apply heap_pres_bind; [apply heap_pres_deref | intros o; apply heap_pres_ret].
Qed.

Lemma heap_pres_find_task_loop (ts : list loc) (title_ : string) :
  heap_pres (ToDoApp.find_task_loop ts title_).
Proof.
  induction ts as [|task ts IH]; simpl.
  - apply heap_pres_ret.
  - apply heap_pres_bind; [apply heap_pres_deref |].
    intros o. destruct (String.eqb (title o) title_); [apply heap_pres_ret | exact IH].
Qed.

Lemma heap_pres_find_task (title_ : string) : heap_pres (ToDoApp.find_task title_).
Proof.
  apply heap_pres_bind; [apply heap_pres_get_tasks |]. intros ts.
  apply heap_pres_bind; [apply heap_pres_find_task_loop |]. intros [task|].
  - apply heap_pres_ret.
  - apply heap_pres_bind; [apply heap_pres_print | intros _; apply heap_pres_ret].
Qed.

Lemma heap_pres_add_task (task : loc) : heap_pres (ToDoApp.add_task task).
Proof.
  apply heap_pres_bind; [apply heap_pres_append |]. intros _.
  apply heap_pres_bind; [apply heap_pres_str | intros s; apply heap_pres_print].
Qed.

Lemma heap_pres_display_tasks : heap_pres ToDoApp.display_tasks.
Proof.
  apply heap_pres_bind; [apply heap_pres_get_tasks |]. intros [|task ts].
  - apply heap_pres_print.
  - apply heap_pres_bind; [apply heap_pres_print |]. intros _.
    apply heap_pres_for_each. intros x.
    apply heap_pres_bind; [apply heap_pres_str | intros s; apply heap_pres_print].
Qed.

Lemma heap_pres_reminder (self : Reminder.t) (task : loc) :
  heap_pres (Reminder.send_reminder self task).
Proof.
  apply heap_pres_bind; [apply heap_pres_deref | intros o; apply heap_pres_print].
Qed.

Lemma heap_pres_email (self : EmailReminder.t) (task : loc) (reminder_text : string) :
  heap_pres (EmailReminder.set_reminder self task reminder_text).
Proof.
  apply heap_pres_bind; [apply heap_pres_deref | intros o; apply heap_pres_print].
Qed.

Lemma heap_pres_sms (self : SMSReminder.t) (task : loc) (reminder_text : string) :
  heap_pres (SMSReminder.set_reminder self task reminder_text).
Proof.
  apply heap_pres_bind; [apply heap_pres_deref | intros o; apply heap_pres_print].
Qed.


(** ** RecurringTask *)

Lemma recurring_medium_insert (h : gmap loc TaskObj) (l : loc) (o : TaskObj) :
  recurring_medium h ->
  (forall recurrence, cls o = CRecurringTask recurrence -> priority o = "Medium") ->
  recurring_medium (<[l := o]> h).
Proof.
  intros Hh Ho l' o' recurrence Hl Hc.
  destruct (decide (l = l')) as [<- | Hne].
  - rewrite lookup_insert_eq in Hl. injection Hl as <-. by eapply Ho.
  - rewrite lookup_insert_ne in Hl; [| exact Hne]. by eapply Hh.
Qed.

Lemma new_recurring_medium (o : TaskObj) (w w' : World) :
  (forall recurrence, cls o = CRecurringTask recurrence -> priority o = "Medium") ->
  (alloc o;; mret tt) w = Some (tt, w') ->
  recurring_medium (heap w) -> recurring_medium (heap w').
Proof.
  intros Ho Hrun Hinv. unfold alloc in Hrun. unfold_M.
  injection Hrun as <-. simpl. by apply recurring_medium_insert.
Qed.

Lemma update_status_recurring_medium (task : loc) (status : bool) (w w' : World) :
  Task.update_status task status w = Some (tt, w') ->
  recurring_medium (heap w) -> recurring_medium (heap w').
Proof.
  unfold Task.update_status. destruct (heap w !! task) as [o|] eqn:Ho; [| discriminate].
  intros [= <-] Hinv. simpl. apply recurring_medium_insert; [exact Hinv |].
  intros recurrence Hc. simpl in *. by eapply Hinv.
Qed.

Lemma call_recurring_medium (c : Call) (w w' : World) :
  call c w = Some (tt, w') ->
  recurring_medium (heap w) -> recurring_medium (heap w').
Proof.
  destruct c as [t p n|t p n|t r n|t p n|t p e n|task status|task| |t|t status
                |r task|task text|task text]; simpl; intros Hrun Hinv.
  - eapply new_recurring_medium; [| exact Hrun | exact Hinv]. discriminate.
  - eapply new_recurring_medium; [| exact Hrun | exact Hinv]. discriminate.
  - eapply new_recurring_medium; [| exact Hrun | exact Hinv]. reflexivity.
  - eapply new_recurring_medium; [| exact Hrun | exact Hinv]. discriminate.
  - eapply new_recurring_medium; [| exact Hrun | exact Hinv]. discriminate.
  - by eapply update_status_recurring_medium.
  - by rewrite (heap_pres_add_task _ _ _ _ Hrun).
  - by rewrite (heap_pres_display_tasks _ _ _ Hrun).
  - assert (Hp : heap_pres (ToDoApp.find_task t;; mret tt)).
    { apply heap_pres_bind; [apply heap_pres_find_task | intros _; apply heap_pres_ret]. }
    by rewrite (Hp _ _ _ Hrun).
  - unfold ToDoApp.update_task_status in Hrun.
    unfold mbind at 1, M_bind, bind in Hrun.
    destruct (ToDoApp.find_task t w) as [[[task|] w1]|] eqn:Hfind; [| | discriminate].
    + rewrite <- (heap_pres_find_task _ _ _ _ Hfind) in Hinv.
      unfold mbind, M_bind, bind in Hrun.
      destruct (Task.update_status task status w1) as [[[] w2]|] eqn:Hupd;
        [| discriminate].
      injection Hrun as <-. simpl.
      by eapply update_status_recurring_medium.
    + injection Hrun as <-. by rewrite (heap_pres_find_task _ _ _ _ Hfind).
  - by rewrite (heap_pres_reminder _ _ _ _ _ Hrun).
  - by rewrite (heap_pres_email EmailReminder.new task text _ _ _ Hrun).
  - by rewrite (heap_pres_sms SMSReminder.new task text _ _ _ Hrun).
Qed.

Lemma run_recurring_medium (cs : list Call) (w w' : World) :
  run cs w = Some (tt, w') ->
  recurring_medium (heap w) -> recurring_medium (heap w').
Proof.
  revert w. induction cs as [|c cs IH]; intros w; simpl.
  - intros [= <-]. trivial.
  - unfold run in *. simpl. unfold mbind, M_bind, bind.
    destruct (call c w) as [[[] w1]|] eqn:Hc; [| discriminate].
    intros Hrun Hinv. apply (IH w1 Hrun). by eapply call_recurring_medium.
Qed.

(** C9. A [RecurringTask] is constructed from a title and a recurrence only
    and always gets priority "Medium", where the constructors of the other
    classes give the task the priority the caller passes.  No call changes
    a priority afterwards: in every world a program reaches from the initial
    one, every [RecurringTask] has priority "Medium". *)
Theorem recurring_task_priority_medium (title_ recurrence : string) (now : Z) :
  priority (RecurringTask.__init__ title_ recurrence now) = "Medium" /\
  (forall w, exists l w' o,
      RecurringTask.new title_ recurrence now w = Some (l, w') /\
      heap w' !! l = Some o /\
      cls o = CRecurringTask recurrence /\ priority o = "Medium") /\
  (forall p e,
      priority (Task.__init__ CTask title_ (Some p) now) = p /\
      priority (PriorityTask.__init__ title_ (Some p) now) = p /\
      priority (SimpleTask.__init__ title_ (Some p) now) = p /\
      priority (AdvancedTask.__init__ title_ (Some p) e now) = p) /\
  (forall cs w, run cs initial = Some (tt, w) -> recurring_medium (heap w)).
Proof.
  split; [reflexivity |]. split; [| split].
  - intros w.
    destruct (alloc_spec (RecurringTask.__init__ title_ recurrence now) w)
      as (l & Hl & _).
    eexists l, _, _. split; [exact Hl |]. split; [apply lookup_insert_eq |].
    by split.
  - intros p e. by repeat split.
  - intros cs w Hrun. apply (run_recurring_medium cs initial w Hrun).
    intros l o r Hl. change (heap initial) with (∅ : gmap loc TaskObj) in Hl.
    by rewrite lookup_empty in Hl.
Qed.

Lemma recurring_task_priority_medium_witness :
  exists w,
    run [ NewRecurringTask "Workout" "Daily" 2;
          NewAdvancedTask "Workout" (Some "High") None 3;
          AddTask 1%positive;
          UpdateTaskStatus "Workout" true ] initial = Some (tt, w) /\
    recurring_medium (heap w).
Proof.
  destruct (recurring_task_priority_medium "Workout" "Daily" 2)
    as (_ & _ & _ & Hinv).
  eexists. split; [vm_compute; reflexivity |].
  apply (Hinv [ NewRecurringTask "Workout" "Daily" 2;
                NewAdvancedTask "Workout" (Some "High") None 3;
                AddTask 1%positive;
                UpdateTaskStatus "Workout" true ]).
  vm_compute. reflexivity.
Defined.

(** * Further properties *)

(** ** How a call changes the store *)

Lemma new_heap_step (c : Call) (o : TaskObj) (w w' : World) :
  (alloc o;; mret tt) w = Some (tt, w') ->
  heap_step c (heap w) (heap w') /\ app w' = app w.
Proof.
  intros Hrun. destruct (alloc_spec o w) as (l & Hl & Hfresh).
  rewrite (bind_Some _ _ _ _ _ Hl) in Hrun. injection Hrun as <-.
  split; [| reflexivity]. by eapply step_new.
Qed.

Lemma update_status_heap_step (c : Call) (task : loc) (status : bool)
    (w w' : World) :
  sets_status c = true ->
  Task.update_status task status w = Some (tt, w') ->
  heap_step c (heap w) (heap w') /\ app w' = app w.
Proof.
  intros Hc. unfold Task.update_status.
  destruct (heap w !! task) as [o|] eqn:Ho; [| discriminate].
  intros [= <-]. split; [| reflexivity]. by eapply step_status.
Qed.

Lemma app_pres_find_task (title_ : string) : app_pres (ToDoApp.find_task title_).
Proof.
  intros w r w'. unfold ToDoApp.find_task. unfold_M.
  destruct (ToDoApp.find_task_loop (tasks (app w)) title_ w) as [[[task|] w1]|] eqn:E;
    [| | discriminate].
  - intros [= _ <-]. clear -E. revert E.
    induction (tasks (app w)) as [|l ts IH]; simpl; [discriminate |].
    unfold_M. destruct (heap w !! l) as [o|]; [| discriminate].
    destruct (String.eqb (title o) title_); [by intros [= _ <-] | exact IH].
  - intros [= _ <-]. simpl. clear -E. revert E.
    induction (tasks (app w)) as [|l ts IH]; simpl; [by intros [= <-] |].
    unfold_M. destruct (heap w !! l) as [o|]; [| discriminate].
    destruct (String.eqb (title o) title_); [discriminate | exact IH].
Qed.

Lemma update_task_status_heap_step (title_ : string) (status : bool)
    (w w' : World) :
  ToDoApp.update_task_status title_ status w = Some (tt, w') ->
  heap_step (UpdateTaskStatus title_ status) (heap w) (heap w') /\
  app w' = app w.
Proof.
  unfold ToDoApp.update_task_status. unfold mbind at 1, M_bind, bind.
  destruct (ToDoApp.find_task title_ w) as [[[task|] w1]|] eqn:Hfind;
    [| | discriminate].
  - rewrite <- (heap_pres_find_task _ _ _ _ Hfind).
    rewrite <- (app_pres_find_task _ _ _ _ Hfind).
    unfold mbind, M_bind, bind.
    destruct (Task.update_status task status w1) as [[[] w2]|] eqn:Hupd;
      [| discriminate].
    intros [= <-]. simpl.
    by apply (update_status_heap_step _ task status).
  - intros [= <-]. rewrite <- (heap_pres_find_task _ _ _ _ Hfind).
    rewrite <- (app_pres_find_task _ _ _ _ Hfind). split; [by apply step_same | done].
Qed.

Lemma print_line_step (c : Call) (task : loc) (line : TaskObj -> string)
    (w w' : World) :
  (o ← deref task; print (line o)) w = Some (tt, w') ->
  heap_step c (heap w) (heap w') /\ app w' = app w.
Proof.
  unfold_M. destruct (heap w !! task) as [o|]; [| discriminate].
  intros [= <-]. split; [by apply step_same | reflexivity].
Qed.

Lemma display_tasks_loop_world (ts : list loc) (w w' : World) :
  for_each (fun task => s ← str task; print s) ts w = Some (tt, w') ->
  heap w' = heap w /\ app w' = app w.
Proof.
  revert w. induction ts as [|task ts IH]; intros w; simpl.
  - by intros [= <-].
  - unfold mbind at 1, M_bind, bind.
    destruct ((s ← str task; print s) w) as [[[] w1]|] eqn:E; [| discriminate].
    intros Hrest. apply IH in Hrest as [-> ->].
    revert E. unfold_M. destruct (heap w !! task); [| discriminate].
    by intros [= <-].
Qed.

Lemma call_step (c : Call) (w w' : World) :
  call c w = Some (tt, w') ->
  heap_step c (heap w) (heap w') /\
  tasks (app w') = tasks (app w) ++ added [c].
Proof.
  destruct c as [t p n|t p n|t r n|t p n|t p e n|task status|task| |t|t status
                |r task|task text|task text]; simpl; intros Hrun;
    rewrite ?app_nil_r.
  - apply (new_heap_step (NewTask t p n)) in Hrun as [? ->]. done.
  - apply (new_heap_step (NewPriorityTask t p n)) in Hrun as [? ->]. done.
  - apply (new_heap_step (NewRecurringTask t r n)) in Hrun as [? ->]. done.
  - apply (new_heap_step (NewSimpleTask t p n)) in Hrun as [? ->]. done.
  - apply (new_heap_step (NewAdvancedTask t p e n)) in Hrun as [? ->]. done.
  - apply (update_status_heap_step (UpdateStatus task status)) in Hrun as [? ->];
      done.
  - revert Hrun. unfold ToDoApp.add_task, ToDoApp.append. unfold_M. simpl.
    destruct (heap w !! task); [| discriminate].
    intros [= <-]. split; [by apply step_same | reflexivity].
  - revert Hrun. unfold ToDoApp.display_tasks.
    rewrite (bind_Some get_tasks _ w w (tasks (app w)) eq_refl).
    destruct (tasks (app w)) as [|task ts] eqn:Hts.
    + intros [= <-]. simpl. split; [by apply step_same | by rewrite Hts].
    + rewrite (bind_Some (print "Tasks List:") _ w _ tt eq_refl).
      intros Hloop. apply display_tasks_loop_world in Hloop as [Hh Ha].
      simpl in Hh, Ha. rewrite Ha, Hts. split; [by apply step_same | done].
  - revert Hrun. unfold mbind, M_bind, bind.
    destruct (ToDoApp.find_task t w) as [[r w1]|] eqn:Hfind; [| discriminate].
    intros [= <-]. rewrite (heap_pres_find_task _ _ _ _ Hfind).
    rewrite (app_pres_find_task _ _ _ _ Hfind). split; [by apply step_same | done].
  - apply update_task_status_heap_step in Hrun as [? ->]. done.
  - apply (print_line_step (SendReminder r task)) in Hrun as [? ->]. done.
  - apply (print_line_step (SendEmail task text)) in Hrun as [? ->]. done.
  - apply (print_line_step (SendSMS task text)) in Hrun as [? ->]. done.
Qed.

Lemma run_cons_inv (c : Call) (cs : list Call) (w w' : World) :
  run (c :: cs) w = Some (tt, w') ->
  exists w1, call c w = Some (tt, w1) /\ run cs w1 = Some (tt, w').
Proof.
  unfold run. simpl. unfold mbind, M_bind, bind.
  destruct (call c w) as [[[] w1]|]; [| discriminate]. eauto.
Qed.

Lemma same_but_completed_trans (o1 o2 o3 : TaskObj) :
  same_but_completed o1 o2 -> same_but_completed o2 o3 ->
  same_but_completed o1 o3.
Proof.
  intros (? & ? & ? & ?) (? & ? & ? & ?). repeat split; congruence.
Qed.

Lemma heap_step_frozen (c : Call) (h h' : gmap loc TaskObj) :
  heap_step c h h' -> frozen h h'.
Proof.
  intros [-> | l o Hl -> | l o status _ Hl ->] l' o' Hl'.
  - exists o'. by repeat split.
  - exists o'. split; [| by repeat split].
    rewrite lookup_insert_ne; [exact Hl' | congruence].
  - destruct (decide (l = l')) as [<- | Hne].
    + rewrite Hl in Hl'. injection Hl' as <-.
      exists (Task.set_completed status o).
      split; [apply lookup_insert_eq | by repeat split].
    + exists o'. split; [| by repeat split].
      by rewrite lookup_insert_ne.
Qed.

(** X1. No call assigns the title, the priority, the creation time or the
    class attributes of a task after its construction: whatever program
    runs, every object of the store is still there afterwards, under the
    same reference, and differs at most in [completed]. *)
Theorem run_freezes_attributes (cs : list Call) (w w' : World) :
  run cs w = Some (tt, w') -> frozen (heap w) (heap w').
Proof.
  revert w. induction cs as [|c cs IH]; intros w Hrun.
  - injection Hrun as <-. intros l o Hl. exists o. by repeat split.
  - apply run_cons_inv in Hrun as (w1 & Hc & Hrest).
    apply call_step in Hc as [Hstep _]. apply heap_step_frozen in Hstep.
    intros l o Hl. destruct (Hstep l o Hl) as (o1 & Hl1 & Hsame1).
    destruct (IH w1 Hrest l o1 Hl1) as (o2 & Hl2 & Hsame2).
    exists o2. split; [exact Hl2 | by eapply same_but_completed_trans].
Qed.

Lemma run_freezes_attributes_witness :
  exists w',
    run [ UpdateTaskStatus "Workout" true;
          NewTask "Workout" (Some "High") 20;
          UpdateStatus 1%positive true;
          AddTask 2%positive;
          SendSMS 3%positive "Go";
          DisplayTasks ] sample = Some (tt, w') /\
    frozen (heap sample) (heap w').
Proof.
  eexists. split; [vm_compute; reflexivity |].
  apply (run_freezes_attributes
           [ UpdateTaskStatus "Workout" true;
             NewTask "Workout" (Some "High") 20;
             UpdateStatus 1%positive true;
             AddTask 2%positive;
             SendSMS 3%positive "Go";
             DisplayTasks ]).
  vm_compute. reflexivity.
Defined.

(** X2. [completed] is assigned by [update_status] only, which only
    [Task.update_status] and [ToDoApp.update_task_status] reach: a program
    without these two calls leaves every object of the store exactly as it
    was, constructing, adding, displaying, finding and reminding included. *)
Theorem run_without_status_calls (cs : list Call) (w w' : World) :
  forallb (fun c => negb (sets_status c)) cs = true ->
  run cs w = Some (tt, w') ->
  forall l o, heap w !! l = Some o -> heap w' !! l = Some o.
Proof.
  revert w. induction cs as [|c cs IH]; intros w Hcs Hrun l o Hl.
  - by injection Hrun as <-.
  - simpl in Hcs. apply andb_prop in Hcs as [Hc Hcs].
    apply run_cons_inv in Hrun as (w1 & Hcall & Hrest).
    apply (IH w1 Hcs Hrest). apply call_step in Hcall as [Hstep _].
    destruct Hstep as [-> | l' o' Hl' -> | l' o' status Hs _ _].
    + exact Hl.
    + rewrite lookup_insert_ne; [exact Hl | congruence].
    + rewrite Hs in Hc. discriminate.
Qed.

Lemma run_without_status_calls_witness :
  exists w',
    run [ NewSimpleTask "Read" None 20;
          AddTask 4%positive;
          FindTask "Workout";
          SendEmail 2%positive "Soon";
          SendReminder "Pager" 1%positive;
          DisplayTasks ] sample = Some (tt, w') /\
    forall l o, heap sample !! l = Some o -> heap w' !! l = Some o.
Proof.
  eexists. split; [vm_compute; reflexivity |].
  apply (run_without_status_calls
           [ NewSimpleTask "Read" None 20;
             AddTask 4%positive;
             FindTask "Workout";
             SendEmail 2%positive "Soon";
             SendReminder "Pager" 1%positive;
             DisplayTasks ]).
  - reflexivity.
  - vm_compute. reflexivity.
Defined.

(** X3. The application's list is only ever appended to: after any program
    it is the list before, followed by the arguments of the program's
    [add_task] calls in call order.  No call removes, replaces or reorders
    an entry, and adding the same task again adds another entry. *)
Theorem run_extends_task_list (cs : list Call) (w w' : World) :
  run cs w = Some (tt, w') ->
  tasks (app w') = tasks (app w) ++ added cs.
Proof.
  revert w. induction cs as [|c cs IH]; intros w Hrun.
  - injection Hrun as <-. simpl. by rewrite app_nil_r.
  - apply run_cons_inv in Hrun as (w1 & Hc & Hrest).
    apply call_step in Hc as [_ Hts]. rewrite (IH w1 Hrest), Hts.
    rewrite <- app_assoc. f_equal.
    unfold added. simpl. by destruct c.
Qed.

Lemma run_extends_task_list_witness :
  exists w',
    run [ AddTask 2%positive;
          UpdateTaskStatus "Complete project" true;
          NewTask "Read" None 20;
          AddTask 5%positive;
          AddTask 2%positive ] sample = Some (tt, w') /\
    tasks (app w') = [1; 2; 3; 4; 1; 2; 5; 2]%positive.
Proof.
  eexists. split; [vm_compute; reflexivity |].
  apply (run_extends_task_list
           [ AddTask 2%positive;
             UpdateTaskStatus "Complete project" true;
             NewTask "Read" None 20;
             AddTask 5%positive;
             AddTask 2%positive ] sample).
  vm_compute. reflexivity.
Defined.

(** ** Composing status updates *)

Lemma set_completed_twice (a b : bool) (o : TaskObj) :
  Task.set_completed b (Task.set_completed a o) = Task.set_completed b o.
Proof. reflexivity. Qed.

Lemma set_completed_same (o : TaskObj) :
  Task.set_completed (completed o) o = o.
Proof. by destruct o. Qed.

Lemma update_status_lookup (w : World) (task : loc) (o : TaskObj) (status : bool) :
  heap w !! task = Some o ->
  Task.update_status task status w =
    Some (tt, mkWorld (<[task := Task.set_completed status o]> (heap w))
                (app w) (stdout w)).
Proof. intros Ho. unfold Task.update_status. by rewrite Ho. Qed.

(** X4. Of two [update_status] calls on one task the last one decides: the
    pair leaves the world that the second call alone would leave.  A call
    with the status the task already has changes nothing, so setting a
    status and then the former one restores the world exactly. *)
Theorem update_status_last_wins (w : World) (task : loc) (o : TaskObj)
    (a b : bool) :
  heap w !! task = Some o ->
  (Task.update_status task a;; Task.update_status task b) w =
    Task.update_status task b w /\
  Task.update_status task (completed o) w = Some (tt, w) /\
  (Task.update_status task a;; Task.update_status task (completed o)) w =
    Some (tt, w).
Proof.
  intros Ho.
  assert (Hpair : forall c,
    (Task.update_status task a;; Task.update_status task c) w =
      Task.update_status task c w).
  { intros c. rewrite (bind_Some _ _ _ _ _ (update_status_lookup w task o a Ho)).
    rewrite (update_status_lookup _ task (Task.set_completed a o) c);
      [| simpl; apply lookup_insert_eq].
    rewrite (update_status_lookup w task o c Ho). simpl.
    by rewrite insert_insert_eq. }
  assert (Hsame : Task.update_status task (completed o) w = Some (tt, w)).
  { rewrite (update_status_lookup w task o _ Ho), set_completed_same.
    rewrite (insert_id _ _ _ Ho). by destruct w. }
  split; [apply Hpair |]. split; [exact Hsame |]. by rewrite Hpair.
Qed.

Lemma update_status_last_wins_witness :
  (Task.update_status 2%positive true;; Task.update_status 2%positive false) sample =
    Some (tt, sample).
Proof.
  destruct (update_status_last_wins sample 2%positive
              (PriorityTask.__init__ "Complete project" None 11) true true eq_refl)
    as (_ & _ & Hback).
  exact Hback.
Defined.

(** ** What a result of find_task means *)

Lemma find_task_loop_inv (w : World) (title_ : string) (ts : list loc)
    (r : option loc) (w' : World) :
  ToDoApp.find_task_loop ts title_ w = Some (r, w') ->
  w' = w /\
  match r with
  | Some task => exists i o, first_in w title_ ts i task o
  | None => absent_in w title_ ts
  end.
Proof.
  revert r w'. induction ts as [|l ts IH]; intros r w'; simpl.
  - intros [= <- <-]. split; [reflexivity |].
    intros task o Hin. by apply elem_of_nil in Hin.
  - unfold_M. destruct (heap w !! l) as [o|] eqn:Ho; [| discriminate].
    destruct (String.eqb (title o) title_) eqn:Heq.
    + intros [= <- <-]. split; [reflexivity |].
      exists 0, o. apply String.eqb_eq in Heq.
      repeat split; try assumption. intros j ? ? Hj. lia.
    + intros Hrest. apply String.eqb_neq in Heq.
      destruct (IH r w' Hrest) as [-> Hr]. split; [reflexivity |].
      destruct r as [task|].
      * destruct Hr as (i & o' & Hi & Ho' & Ht & Hbefore).
        exists (S i), o'. repeat split; try assumption.
        intros [|j] task' o'' Hj Hlk Hlo; simpl in Hlk.
        -- injection Hlk as <-. rewrite Ho in Hlo. by injection Hlo as <-.
        -- apply (Hbefore j task' o''); [lia | exact Hlk | exact Hlo].
      * intros task o' Hin Hlo. apply elem_of_cons in Hin as [-> | Hin].
        -- rewrite Ho in Hlo. by injection Hlo as <-.
        -- by apply (Hr task o').
Qed.

(** X5. What [find_task] returns can be relied on: a returned task is in the
    list, carries exactly the title asked for and has no task with that
    title before it, and nothing was printed or changed; [None] is returned
    only when no task of the list carries the title, with the "not found"
    line as the one effect. *)
Theorem find_task_result_sound (w w' : World) (title_ : string)
    (r : option loc) :
  ToDoApp.find_task title_ w = Some (r, w') ->
  match r with
  | Some task =>
      w' = w /\ exists i o, first_in w title_ (tasks (app w)) i task o
  | None =>
      absent_in w title_ (tasks (app w)) /\
      w' = mkWorld (heap w) (app w)
             (stdout w ++ ["Task '" +:+ title_ +:+ "' not found."])
  end.
Proof.
  unfold ToDoApp.find_task.
  rewrite (bind_Some get_tasks _ w w (tasks (app w)) eq_refl).
  unfold mbind at 1, M_bind, bind.
  destruct (ToDoApp.find_task_loop (tasks (app w)) title_ w) as [[found w1]|] eqn:E;
    [| discriminate].
  apply find_task_loop_inv in E as [-> Hfound].
  destruct found as [task|].
  - intros [= <- <-]. by split.
  - unfold_M. intros [= <- <-]. by split.
Qed.

Lemma find_task_result_sound_witness :
  sample = sample /\
  exists i o, first_in sample "Workout" (tasks (app sample)) i 3%positive o.
Proof.
  apply (find_task_result_sound sample sample "Workout" (Some 3%positive)).
  vm_compute. reflexivity.
Defined.

(** ** Adding, then finding *)

Lemma find_task_first (w : World) (title_ : string) (i : nat) (task : loc)
    (o : TaskObj) :
  well_formed w = true ->
  first_in w title_ (tasks (app w)) i task o ->
  ToDoApp.find_task title_ w = Some (Some task, w).
Proof.
  intros Hwf Hfirst. apply find_task_found.
  exact (find_task_loop_first w title_ _ i task o Hwf Hfirst).
Qed.



(** ** Updating through the application *)

Lemma allocated_insert (h : gmap loc TaskObj) (l : loc) (o : TaskObj)
    (ts : list loc) :
  forallb (allocated h) ts = true ->
  forallb (allocated (<[l := o]> h)) ts = true.
Proof.
  induction ts as [|l' ts IH]; simpl; [done |].
  intros [Hl' Hts]%andb_prop. rewrite (IH Hts), andb_true_r.
  unfold allocated in *. destruct (decide (l = l')) as [<- | Hne].
  - by rewrite lookup_insert_eq.
  - by rewrite lookup_insert_ne.
Qed.

Lemma first_in_update (w : World) (title_ : string) (i : nat) (task : loc)
    (o : TaskObj) (status : bool) (out : list string) :
  first_in w title_ (tasks (app w)) i task o ->
  first_in (mkWorld (<[task := Task.set_completed status o]> (heap w)) (app w) out)
    title_ (tasks (app w)) i task (Task.set_completed status o).
Proof.
  intros (Hi & Ho & Ht & Hbefore).
  split; [exact Hi |]. split; [simpl; apply lookup_insert_eq |].
  split; [exact Ht |].
  intros j task' o' Hj Hlk Hlo. simpl in Hlo.
  destruct (decide (task = task')) as [<- | Hne].
  - exfalso. by apply (Hbefore j task o Hj Hlk Ho).
  - rewrite lookup_insert_ne in Hlo; [| exact Hne].
    by apply (Hbefore j task' o').
Qed.

Lemma update_task_status_found (w : World) (title_ : string) (status : bool)
    (i : nat) (task : loc) (o : TaskObj) :
  well_formed w = true ->
  first_in w title_ (tasks (app w)) i task o ->
  ToDoApp.update_task_status title_ status w =
    Some (tt, mkWorld (<[task := Task.set_completed status o]> (heap w)) (app w)
                (stdout w ++ ["Task '" +:+ title_ +:+ "' status updated to: "
                                +:+ (if status then "Completed" else "Pending")])).
Proof.
  intros Hwf Hfirst. pose proof Hfirst as (_ & Ho & _).
  unfold ToDoApp.update_task_status.
  rewrite (bind_Some _ _ _ _ _ (find_task_first w title_ i task o Hwf Hfirst)).
  by rewrite (bind_Some _ _ _ _ _ (update_status_lookup w task o status Ho)).
Qed.

(** X7. A status update through the application does not disturb lookups:
    the title is found at the same task afterwards.  Of two
    [update_task_status] calls for one title the last one decides: store and
    list are those the second call alone would leave, and updating to one
    status twice leaves the store of a single update. *)
Theorem update_task_status_last_wins (w : World) (title_ : string)
    (a b : bool) (i : nat) (task : loc) (o : TaskObj) :
  well_formed w = true ->
  first_in w title_ (tasks (app w)) i task o ->
  exists w1 w2 w3,
    ToDoApp.update_task_status title_ a w = Some (tt, w1) /\
    ToDoApp.find_task title_ w1 = Some (Some task, w1) /\
    ToDoApp.update_task_status title_ b w1 = Some (tt, w2) /\
    ToDoApp.update_task_status title_ b w = Some (tt, w3) /\
    heap w2 = heap w3 /\ app w2 = app w3.
Proof.
  intros Hwf Hfirst.
  pose proof (update_task_status_found w title_ a i task o Hwf Hfirst) as H1.
  pose proof (update_task_status_found w title_ b i task o Hwf Hfirst) as H3.
  match type of H1 with _ = Some (tt, ?x) => set (w1 := x) in * end.
  assert (Hwf1 : well_formed w1 = true).
  { unfold well_formed, w1. simpl. by apply allocated_insert. }
  assert (Hfirst1 : first_in w1 title_ (tasks (app w1)) i task
                      (Task.set_completed a o)).
  { exact (first_in_update w title_ i task o a _ Hfirst). }
  pose proof (update_task_status_found w1 title_ b i task _ Hwf1 Hfirst1) as H2.
  eexists w1, _, _. split; [exact H1 |].
  split; [exact (find_task_first w1 title_ i task _ Hwf1 Hfirst1) |].
  split; [exact H2 |]. split; [exact H3 |]. simpl.
  split; [by rewrite insert_insert_eq | reflexivity].
Qed.

Lemma update_task_status_last_wins_witness :
  exists w1 w2 w3,
    ToDoApp.update_task_status "Workout" true sample = Some (tt, w1) /\
    ToDoApp.find_task "Workout" w1 = Some (Some 3%positive, w1) /\
    ToDoApp.update_task_status "Workout" false w1 = Some (tt, w2) /\
    ToDoApp.update_task_status "Workout" false sample = Some (tt, w3) /\
    heap w2 = heap w3 /\ app w2 = app w3.
Proof.
  apply (update_task_status_last_wins sample "Workout" true false 2 3%positive
           (RecurringTask.__init__ "Workout" "Daily" 12) eq_refl).
  repeat split; try reflexivity.
  intros [|[|j]] task' o' Hj Hlk Ho; [| |lia]; simpl in Hlk;
    injection Hlk as <-; vm_compute in Ho; injection Ho as <-; discriminate.
Defined.

(** ** Updating, then displaying *)

Lemma display_tasks_prints (w : World) (objs : list TaskObj) :
  tasks (app w) <> [] ->
  Forall2 (fun task o => heap w !! task = Some o) (tasks (app w)) objs ->
  ToDoApp.display_tasks w =
    Some (tt, mkWorld (heap w) (app w)
                (stdout w ++ "Tasks List:" :: map str_obj objs)).
Proof.
  intros Hne Hobjs. unfold ToDoApp.display_tasks.
  rewrite (bind_Some get_tasks _ w w (tasks (app w)) eq_refl).
  destruct (tasks (app w)) as [|task ts] eqn:Hts; [done |].
  rewrite (bind_Some (print "Tasks List:") _ w _ tt eq_refl).
  rewrite (display_loop_prints (task :: ts) objs
             (mkWorld (heap w) (app w) (stdout w ++ ["Tasks List:"])) Hobjs).
  simpl. by rewrite <- app_assoc.
Qed.

Lemma Forall2_allocated (h : gmap loc TaskObj) (ts : list loc)
    (objs : list TaskObj) :
  Forall2 (fun task o => h !! task = Some o) ts objs ->
  forallb (allocated h) ts = true.
Proof.
  induction 1 as [|l o ts objs Hl _ IH]; simpl; [done |].
  by rewrite (allocated_lookup _ _ _ Hl), IH.
Qed.

Lemma Forall2_update (h : gmap loc TaskObj) (task : loc) (o : TaskObj)
    (status : bool) (ts : list loc) (objs : list TaskObj) :
  h !! task = Some o ->
  Forall2 (fun l x => h !! l = Some x) ts objs ->
  Forall2 (fun l x => <[task := Task.set_completed status o]> h !! l = Some x) ts
    (zip_with (fun l x => if decide (l = task)
                          then Task.set_completed status x else x) ts objs).
Proof.
  intros Ho. induction 1 as [|l x ts objs Hl _ IH]; simpl; constructor; [| exact IH].
  destruct (decide (l = task)) as [-> | Hne].
  - rewrite Ho in Hl. injection Hl as <-. apply lookup_insert_eq.
  - by rewrite lookup_insert_ne.
Qed.

(** X8. After [update_task_status] has found its task, [display_tasks] shows
    the new status at every entry of the list that is this task (a task
    added twice is one object) and the former text at every other entry,
    tasks with the same title included. *)
Theorem update_task_status_then_display (w : World) (title_ : string)
    (status : bool) (i : nat) (task : loc) (o : TaskObj) (objs : list TaskObj) :
  first_in w title_ (tasks (app w)) i task o ->
  Forall2 (fun l x => heap w !! l = Some x) (tasks (app w)) objs ->
  exists w1 w2,
    ToDoApp.update_task_status title_ status w = Some (tt, w1) /\
    ToDoApp.display_tasks w1 = Some (tt, w2) /\
    heap w2 = heap w1 /\ app w2 = app w1 /\
    stdout w2 =
      stdout w1 ++ "Tasks List:" ::
        map str_obj
          (zip_with (fun l x => if decide (l = task)
                                then Task.set_completed status x else x)
             (tasks (app w)) objs).
Proof.
  intros Hfirst Hobjs. pose proof Hfirst as (Hi & Ho & _).
  assert (Hwf : well_formed w = true) by exact (Forall2_allocated _ _ _ Hobjs).
  pose proof (update_task_status_found w title_ status i task o Hwf Hfirst) as H1.
  match type of H1 with _ = Some (tt, ?x) => set (w1 := x) in * end.
  assert (Hne : tasks (app w1) <> []).
  { simpl. intros Hnil. rewrite Hnil in Hi. by rewrite lookup_nil in Hi. }
  pose proof (display_tasks_prints w1 _ Hne
                (Forall2_update (heap w) task o status _ _ Ho Hobjs)) as H2.
  eexists w1, _. split; [exact H1 |]. split; [exact H2 |]. by simpl.
Qed.

Lemma update_task_status_then_display_witness :
  exists w1 w2,
    ToDoApp.update_task_status "Buy groceries" true sample = Some (tt, w1) /\
    ToDoApp.display_tasks w1 = Some (tt, w2) /\
    stdout w2 =
      stdout w1 ++
        [ "Tasks List:";
          "Task: Buy groceries, Priority: Medium, Status: Completed";
          "Task: Complete project, Priority: High, Status: Pending";
          "Task: Workout, Priority: Medium, Status: Pending, Recurrence: Daily";
          "Task: Workout, Priority: Low, Status: Pending, Notes: Gym";
          "Task: Buy groceries, Priority: Medium, Status: Completed" ].
Proof.
  destruct (update_task_status_then_display sample "Buy groceries" true
              0 1%positive (Task.__init__ CTask "Buy groceries" None 10)
              [ Task.__init__ CTask "Buy groceries" None 10;
                PriorityTask.__init__ "Complete project" None 11;
                RecurringTask.__init__ "Workout" "Daily" 12;
                AdvancedTask.__init__ "Workout" None (Some "Gym") 13;
                Task.__init__ CTask "Buy groceries" None 10 ])
    as (w1 & w2 & Hupd & Hdisp & _ & _ & Hout).
  - repeat split; try reflexivity. intros j task' o' Hj. lia.
  - repeat constructor.
  - exists w1, w2. split; [exact Hupd |]. split; [exact Hdisp | exact Hout].
Defined.

(** ** The text tells the status *)

Lemma append_cancel_l (a b c : string) : a +:+ b = a +:+ c -> b = c.
Proof.
  induction a as [|ch a IH]; simpl; [done |]. intros [= H]. by apply IH.
Qed.

(** X9. The text of a task tells its status: the texts of one task as
    completed and as pending are equal only when the two statuses are, for
    every class and whatever the title, the priority and the notes are. *)
Theorem str_tells_status (o : TaskObj) (a b : bool) :
  str_obj (Task.set_completed a o) = str_obj (Task.set_completed b o) ->
  a = b.
Proof.
  unfold str_obj, RecurringTask.__str__, AdvancedTask.__str__. simpl.
  rewrite !Task_str_status. simpl.
  destruct (cls o) as [| |recurrence| |extra_notes]; rewrite ?append_assoc;
    intros H; do 4 apply append_cancel_l in H;
    destruct a, b; try reflexivity; discriminate H.
Qed.

Lemma str_tells_status_witness :
  str_obj (Task.set_completed true
             (AdvancedTask.__init__ "Status: Pending" None None 0)) =
    "Task: Status: Pending, Priority: Low, Status: Completed, Notes: " /\
  true = true.
Proof.
  split; [reflexivity |].
  apply (str_tells_status (AdvancedTask.__init__ "Status: Pending" None None 0)
           true true).
  reflexivity.
Defined.

(** ** Reminders and status *)

(** X10. A reminder line is made of the task's title and of the channel's
    own words only: the old [Reminder] class prints
    "Reminder sent for task: {title} via {type}", and for it as for the two
    channels the line is the same before and after a status update of the
    task, which a reminder neither reads nor changes. *)
Theorem reminders_ignore_status (w : World) (task : loc) (o : TaskObj)
    (status : bool) (reminder_type_ reminder_text : string) :
  heap w !! task = Some o ->
  let w1 := mkWorld (<[task := Task.set_completed status o]> (heap w))
              (app w) (stdout w) in
  Task.update_status task status w = Some (tt, w1) /\
  Forall (fun '(m, line) =>
            m w = Some (tt, mkWorld (heap w) (app w) (stdout w ++ [line])) /\
            m w1 = Some (tt, mkWorld (heap w1) (app w1) (stdout w1 ++ [line])))
    [ (Reminder.send_reminder (Reminder.__init__ reminder_type_) task,
       "Reminder sent for task: " +:+ title o +:+ " via " +:+ reminder_type_);
      (EmailReminder.set_reminder EmailReminder.new task reminder_text,
       "Email reminder for task '" +:+ title o +:+ "': " +:+ reminder_text);
      (SMSReminder.set_reminder SMSReminder.new task reminder_text,
       "SMS reminder for task '" +:+ title o +:+ "': " +:+ reminder_text) ].
Proof.
  intros Ho w1. split; [exact (update_status_lookup w task o status Ho) |].
  assert (Ho1 : heap w1 !! task = Some (Task.set_completed status o))
    by apply lookup_insert_eq.
  repeat constructor;
    unfold Reminder.send_reminder, EmailReminder.set_reminder,
      SMSReminder.set_reminder; unfold_M;
    by rewrite ?Ho, ?Ho1.
Qed.

Lemma reminders_ignore_status_witness :
  Reminder.send_reminder (Reminder.__init__ "Pager") 1%positive sample =
    Some (tt, mkWorld (heap sample) (app sample)
                ["Reminder sent for task: Buy groceries via Pager"]).
Proof.
  destruct (reminders_ignore_status sample 1%positive
              (Task.__init__ CTask "Buy groceries" None 10) true "Pager" "x"
              eq_refl) as [_ Hall].
  apply Forall_cons in Hall as [[Hbefore _] _]. exact Hbefore.
Defined.

(** ** Substituting the base class *)

Lemma sim_ret {A : Type} (f : A -> A) (a : A) : sim f (mret a) (mret (f a)).
Proof. intros w. reflexivity. Qed.

Lemma sim_bind {A B : Type} (f : A -> A) (g : B -> B) (m m' : M A)
    (k k' : A -> M B) :
  sim f m m' -> (forall a, sim g (k a) (k' (f a))) ->
  sim g (m ≫= k) (m' ≫= k').
Proof.
  intros Hm Hk w. unfold mbind, M_bind, bind. rewrite (Hm w).
  destruct (m w) as [[a w1]|]; simpl; [apply Hk | reflexivity].
Qed.

Lemma sim_print (s : string) : sim id (print s) (print s).
Proof. intros w. reflexivity. Qed.

Lemma sim_line (task : loc) (line : TaskObj -> string) :
  (forall o, line (as_task o) = line o) ->
  sim id (o ← deref task; print (line o)) (o ← deref task; print (line o)).
Proof.
  intros Hline w. unfold_M. simpl. rewrite lookup_fmap.
  destruct (heap w !! task) as [o|]; simpl; [by rewrite Hline | reflexivity].
Qed.

Lemma str_obj_as_task (o : TaskObj) : str_obj (as_task o) = str_obj o.
Proof. unfold str_obj. simpl. by destruct (cls o). Qed.

Lemma sim_str_line (task : loc) (line : string -> string) :
  sim id (s ← str task; print (line s)) (s ← str task; print (line s)).
Proof.
  intros w. unfold_M. simpl. rewrite lookup_fmap.
  destruct (heap w !! task) as [o|]; simpl; [| reflexivity].
  by rewrite str_obj_as_task.
Qed.

Lemma sim_alloc (o : TaskObj) :
  sim id (alloc o;; mret tt) (alloc (as_task o);; mret tt).
Proof.
  intros w. unfold alloc. unfold_M. simpl.
  rewrite dom_fmap_L. unfold as_task_world. simpl. by rewrite fmap_insert.
Qed.

Lemma sim_update_status (task : loc) (status : bool) :
  sim id (Task.update_status task status) (Task.update_status task status).
Proof.
  intros w. unfold Task.update_status. simpl. rewrite lookup_fmap.
  destruct (heap w !! task) as [o|]; simpl; [| reflexivity].
  unfold as_task_world. simpl. by rewrite fmap_insert.
Qed.

Lemma sim_for_each {A : Type} (body : A -> M unit) (xs : list A) :
  (forall x, sim id (body x) (body x)) ->
  sim id (for_each body xs) (for_each body xs).
Proof.
  intros Hbody. induction xs as [|x xs IH]; simpl.
  - apply (sim_ret id).
  - apply (sim_bind id id); [apply Hbody | intros _; exact IH].
Qed.

Lemma sim_find_task (title_ : string) :
  sim id (ToDoApp.find_task title_) (ToDoApp.find_task title_).
Proof.
  assert (Hloop : forall ts,
    sim id (ToDoApp.find_task_loop ts title_) (ToDoApp.find_task_loop ts title_)).
  { induction ts as [|task ts IH]; simpl; [apply (sim_ret id) |].
    intros w. unfold_M. simpl. rewrite lookup_fmap.
    destruct (heap w !! task) as [o|]; simpl; [| reflexivity].
    destruct (String.eqb (title o) title_); [reflexivity | apply IH]. }
  unfold ToDoApp.find_task.
  apply (sim_bind id id); [intros w; reflexivity |]. intros ts.
  apply (sim_bind id id); [apply Hloop |]. intros [task|].
  - apply (sim_ret id).
  - apply (sim_bind id id); [apply sim_print | intros _; apply (sim_ret id)].
Qed.

Lemma sim_call (c : Call) : sim id (call c) (call (with_base_class c)).
Proof.
  destruct c as [t p n|t p n|t r n|t p n|t p e n|task status|task| |t|t status
                |r task|task text|task text]; simpl.
  - apply (sim_alloc (Task.__init__ CTask t p n)).
  - apply (sim_alloc (PriorityTask.__init__ t p n)).
  - apply (sim_alloc (RecurringTask.__init__ t r n)).
  - apply (sim_alloc (SimpleTask.__init__ t p n)).
  - apply (sim_alloc (AdvancedTask.__init__ t p e n)).
  - apply sim_update_status.
  - unfold ToDoApp.add_task.
    apply (sim_bind id id); [intros w; reflexivity |]. intros _.
    apply (sim_str_line task (fun s => "Task added: " +:+ s)).
  - unfold ToDoApp.display_tasks.
    apply (sim_bind id id); [intros w; reflexivity |]. intros [|task ts].
    + apply sim_print.
    + apply (sim_bind id id); [apply sim_print |]. intros _.
      apply sim_for_each. intros x. apply (sim_str_line x (fun s => s)).
  - apply (sim_bind id id); [apply sim_find_task | intros _; apply (sim_ret id)].
  - unfold ToDoApp.update_task_status.
    apply (sim_bind id id); [apply sim_find_task |]. intros [task|].
    + apply (sim_bind id id); [apply sim_update_status | intros _; apply sim_print].
    + apply (sim_ret id).
  - apply (sim_line task
             (fun o => "Reminder sent for task: " +:+ title o +:+ " via " +:+ r)).
    reflexivity.
  - apply (sim_line task
             (fun o => "Email reminder for task '" +:+ title o +:+ "': " +:+ text)).
    reflexivity.
  - apply (sim_line task
             (fun o => "SMS reminder for task '" +:+ title o +:+ "': " +:+ text)).
    reflexivity.
Qed.

(** X11. [PriorityTask] and [SimpleTask] can stand in for [Task], and
    [Task] for them: constructing a base [Task] (with the priority the
    subclass would have chosen) wherever a program constructs one of the two
    gives a run that returns exactly when the original does, with the same
    references, the same list, the same output line for line, and the same
    objects up to their class. *)
Theorem base_class_substitution (cs : list Call) :
  (forall w,
      run (map with_base_class cs) (as_task_world w) =
        prod_map id as_task_world <$> run cs w) /\
  match run cs initial with
  | Some (_, w') =>
      exists w'',
        run (map with_base_class cs) initial = Some (tt, w'') /\
        stdout w'' = stdout w' /\ app w'' = app w' /\
        heap w'' = as_task <$> heap w'
  | None => run (map with_base_class cs) initial = None
  end.
Proof.
  assert (Hrun : forall w,
    run (map with_base_class cs) (as_task_world w) =
      prod_map id as_task_world <$> run cs w).
  { unfold run. induction cs as [|c cs IH]; [reflexivity |].
    simpl. apply (sim_bind id id); [apply sim_call | intros _; exact IH]. }
  split; [exact Hrun |].
  specialize (Hrun initial).
  assert (Hinit : as_task_world initial = initial).
  { unfold as_task_world, initial. simpl. by rewrite fmap_empty. }
  rewrite Hinit in Hrun. rewrite Hrun.
  destruct (run cs initial) as [[[] w']|]; simpl; [| reflexivity].
  eexists. split; [reflexivity |]. by simpl.
Qed.

(** ** The script *)

(** X12. The script at the end of the file runs to its end whatever the
    clock reads, and prints these twelve lines: four additions, the list of
    the four tasks, the update of "Buy groceries", and one reminder by
    e-mail and one by SMS.  It leaves the four tasks in the list in the order
    of their addition, the first one completed and the others pending. *)
Theorem main_output (now1 now2 now3 now4 : Z) :
  exists w,
    main now1 now2 now3 now4 initial = Some (tt, w) /\
    stdout w =
      [ "Task added: Task: Buy groceries, Priority: Medium, Status: Pending";
        "Task added: Task: Complete project, Priority: High, Status: Pending";
        "Task added: Task: Workout, Priority: Medium, Status: Pending, Recurrence: Daily";
        "Task added: Task: Plan vacation, Priority: Medium, Status: Pending, Notes: Include family preferences.";
        "Tasks List:";
        "Task: Buy groceries, Priority: Medium, Status: Pending";
        "Task: Complete project, Priority: High, Status: Pending";
        "Task: Workout, Priority: Medium, Status: Pending, Recurrence: Daily";
        "Task: Plan vacation, Priority: Medium, Status: Pending, Notes: Include family preferences.";
        "Task 'Buy groceries' status updated to: Completed";
        "Email reminder for task 'Complete project': Deadline is tomorrow!";
        "SMS reminder for task 'Workout': Don't forget your workout!" ] /\
    Forall2 (fun task o => heap w !! task = Some o) (tasks (app w))
      [ mkTask "Buy groceries" true "Medium" now1 CTask;
        mkTask "Complete project" false "High" now2 CPriorityTask;
        mkTask "Workout" false "Medium" now3 (CRecurringTask "Daily");
        mkTask "Plan vacation" false "Medium" now4
          (CAdvancedTask "Include family preferences.") ].
Proof.
  eexists. split; [vm_compute; reflexivity |].
  split; [reflexivity |]. repeat constructor.
Qed.

(** ** Worlds a program reaches *)

Lemma allocated_frozen (h h' : gmap loc TaskObj) (ts : list loc) :
  frozen h h' -> forallb (allocated h) ts = true ->
  forallb (allocated h') ts = true.
Proof.
  intros Hfr. induction ts as [|l ts IH]; simpl; [done |].
  intros [Hl Hts]%andb_prop. rewrite (IH Hts), andb_true_r.
  apply allocated_true in Hl as [o Ho].
  destruct (Hfr l o Ho) as (o' & Ho' & _). by eapply allocated_lookup.
Qed.

Lemma call_well_formed (c : Call) (w w' : World) :
  call c w = Some (tt, w') -> well_formed w = true -> well_formed w' = true.
Proof.
  intros Hrun Hwf. pose proof (call_step c w w' Hrun) as [Hstep Hts].
  apply heap_step_frozen in Hstep.
  unfold well_formed in *. rewrite Hts, forallb_app.
  rewrite (allocated_frozen _ _ _ Hstep Hwf). simpl.
  destruct c; simpl; try reflexivity.
  rewrite andb_true_r. revert Hrun. simpl.
  unfold ToDoApp.add_task, ToDoApp.append. unfold_M. simpl.
  destruct (heap w !! task) as [o|] eqn:Ho; [| discriminate].
  intros _. destruct (Hstep task o Ho) as (o' & Ho' & _).
  by eapply allocated_lookup.
Qed.

Lemma allocated_objects (h : gmap loc TaskObj) (ts : list loc) :
  forallb (allocated h) ts = true ->
  exists objs, Forall2 (fun task o => h !! task = Some o) ts objs.
Proof.
  induction ts as [|l ts IH]; simpl; [by exists [] |].
  intros [Hl Hts]%andb_prop. apply allocated_true in Hl as [o Ho].
  destruct (IH Hts) as [objs Hobjs]. exists (o :: objs). by constructor.
Qed.

Lemma find_task_loop_returns (w : World) (title_ : string) (ts : list loc) :
  forallb (allocated (heap w)) ts = true ->
  exists r, ToDoApp.find_task_loop ts title_ w = Some (r, w).
Proof.
  induction ts as [|l ts IH]; simpl; [by exists None |].
  intros [Hl Hts]%andb_prop. apply allocated_true in Hl as [o Ho].
  unfold_M. rewrite Ho.
  destruct (String.eqb (title o) title_); [by exists (Some l) | by apply IH].
Qed.

Lemma find_task_returns (w : World) (title_ : string) :
  well_formed w = true ->
  exists r w', ToDoApp.find_task title_ w = Some (r, w').
Proof.
  intros Hwf. destruct (find_task_loop_returns w title_ _ Hwf) as [[task|] Hr].
  - eexists _, _. by apply find_task_found.
  - eexists _, _. by apply find_task_not_found.
Qed.

(** X13. The application's list never holds a reference to a task that does
    not exist: every world a program reaches from the initial one is
    well-formed.  There [display_tasks], [find_task] and
    [update_task_status], which take no task from the caller, always
    return, whatever the title asked for. *)
Theorem reachable_well_formed (cs : list Call) (w : World) :
  run cs initial = Some (tt, w) ->
  well_formed w = true /\
  forall c, takes_no_reference c = true -> exists w', call c w = Some (tt, w').
Proof.
  intros Hrun.
  assert (Hwf : well_formed w = true).
  { assert (Hgen : forall w0, well_formed w0 = true ->
      run cs w0 = Some (tt, w) -> well_formed w = true).
    { clear Hrun. induction cs as [|c cs IH]; intros w0 Hwf0 Hrun.
      - by injection Hrun as <-.
      - apply run_cons_inv in Hrun as (w1 & Hc & Hrest).
        apply (IH w1); [by eapply call_well_formed | exact Hrest]. }
    by apply (Hgen initial). }
  split; [exact Hwf |].
  intros [] Hc; try discriminate Hc; simpl.
  - destruct (allocated_objects _ _ Hwf) as [objs Hobjs].
    destruct (tasks (app w)) as [|task ts] eqn:Hts.
    + eexists. unfold ToDoApp.display_tasks.
      rewrite (bind_Some get_tasks _ w w (tasks (app w)) eq_refl).
      by rewrite Hts.
    + eexists. apply (display_tasks_prints w objs); rewrite Hts; done.
  - destruct (find_task_returns w title_ Hwf) as (r & w' & Hfind).
    eexists. by rewrite (bind_Some _ _ _ _ _ Hfind).
  - destruct (find_task_returns w title_ Hwf) as (r & w' & Hfind).
    unfold ToDoApp.update_task_status.
    rewrite (bind_Some _ _ _ _ _ Hfind).
    pose proof Hfind as Hsound. unfold ToDoApp.find_task in Hsound.
    rewrite (bind_Some get_tasks _ w w (tasks (app w)) eq_refl) in Hsound.
    unfold mbind at 1, M_bind, bind in Hsound.
    destruct (ToDoApp.find_task_loop (tasks (app w)) title_ w)
      as [[found w1]|] eqn:E; [| discriminate].
    apply find_task_loop_inv in E as [-> Hfound].
    destruct found as [task|].
    + injection Hsound as <- <-. destruct Hfound as (i & o & _ & Ho & _).
      rewrite (bind_Some _ _ _ _ _ (update_status_lookup w task o status Ho)).
      by eexists.
    + revert Hsound. unfold_M. intros [= <- <-]. by eexists.
Qed.

Lemma reachable_well_formed_witness :
  exists w,
    run [ NewTask "Read" None 1; AddTask 1%positive; AddTask 1%positive ]
      initial = Some (tt, w) /\
    well_formed w = true /\
    exists w', call (UpdateTaskStatus "Read" true) w = Some (tt, w').
Proof.
  eexists. split; [vm_compute; reflexivity |].
  destruct (reachable_well_formed
              [ NewTask "Read" None 1; AddTask 1%positive; AddTask 1%positive ]
              _ eq_refl) as [Hwf Hcalls].
  split; [exact Hwf |]. by apply (Hcalls (UpdateTaskStatus "Read" true)).
Defined.
